(** * Omnibox front end (src/frontend/src/App.vue): query / selection coordination

    A shallow embedding of the [<script setup>] block of [App.vue].  The
    component's refs and module-level [let] variables are the fields of one
    record [State]; every handler is a computation in a small state-and-output
    monad whose output is the list of calls the handler makes to its host
    (Tauri [invoke], [console.error], DOM focus and scrolling).  An [async]
    function is split at its [await]: the part before it is the handler, the
    part after it is a [_resume] function that the host runs when the awaited
    promise settles.  Timers are kept in a queue with the host clock.

    JavaScript is single-threaded: a handler, and the microtasks it leaves
    behind ([nextTick], the watcher's callback), run to completion before the
    next event, timer or settled [invoke] is looked at.  A step of the model
    is one such task.

    Numbers that the component only stores are rationals; [selectedIndex] is
    an integer and [latestSearchId] a natural number (a double counts
    exactly up to 2^53).  The two view helpers, [getIconComponent] and
    [highlightText], are modelled on their own, the second over UTF-16 code
    units.  Left out: the computed styles, which format numbers, and the
    focus calls and the [window-focused] subscription of [onMounted]. *)

From Stdlib Require Import ZArith List String Ascii Bool Arith Lia QArith Sorted.
Import ListNotations.
Open Scope string_scope.
Open Scope list_scope.
Open Scope nat_scope.

(** ** Data model *)

(** A JavaScript [number] that the front end only stores and passes on. *)
Definition number := Q.

Record SearchResult := {
  id : string;
  title : string;
  subtitle : string;
  score : number;
  action_type : string;
  action_data : string;
  file_type : string
}.

Record AppSettings := {
  max_results : number;
  enable_autostart : bool;
  theme_bg_image : string;
  theme_bg_opacity : number;
  theme_bg_blur : number
}.

(** The object [get_settings] answers with.  The spread
    [{ ...settings.value, ...saved }] takes from [saved] the properties it
    has and keeps the others, so each property may be absent. *)
Record SavedSettings := {
  saved_max_results : option number;
  saved_enable_autostart : option bool;
  saved_theme_bg_image : option string;
  saved_theme_bg_opacity : option number;
  saved_theme_bg_blur : option number
}.

Definition FIXED_BG_PATH : string := "/bg.png".

(** How an awaited promise settles. *)
Inductive Settled (A : Type) :=
| Resolved (a : A)
| Rejected (e : string).
Arguments Resolved {A} a.
Arguments Rejected {A} e.

(** The two callbacks the component hands to [setTimeout]. *)
Inductive Callback :=
| CbSearch      (* () => { performSearch(query.value); } *)
| CbScrollEnd.  (* () => { isMouseScrolling.value = false; } *)

Record Timer := { tid : nat; due : nat; cb : Callback }.

(** What a handler asks of its host. *)
Inductive Effect :=
| InvokeSearch (currentSearchId : nat) (q : string)
| InvokeGetSettings
| InvokeSaveSettings (newSettings : AppSettings)
| InvokeExecuteItem (item_id q : string)
| WindowHide
| ConsoleError (msg detail : string)
| FocusInput
| ScrollIntoView (row : Z)
| PreventDefault.

Record State := {
  query : string;
  results : list SearchResult;
  selectedIndex : Z;
  isLoading : bool;
  searchTimeout : option nat;
  scrollTimeout : option nat;
  latestSearchId : nat;
  isKeyboardScroll : bool;
  isMouseScrolling : bool;
  isKeyboardSelection : bool;
  showSettings : bool;
  settings : AppSettings;
  (* the host's clock (ms) and timer queue *)
  now : nat;
  timers : list Timer;
  nextTimer : nat
}.

Definition default_settings : AppSettings :=
  {| max_results := 100 # 1;
     enable_autostart := false;
     theme_bg_image := FIXED_BG_PATH;
     theme_bg_opacity := 5 # 100;
     theme_bg_blur := 0 # 1 |}.

(** The state the [<script setup>] block builds. *)
Definition init : State :=
  {| query := "";
     results := [];
     selectedIndex := 0;
     isLoading := false;
     searchTimeout := None;
     scrollTimeout := None;
     latestSearchId := 0;
     isKeyboardScroll := false;
     isMouseScrolling := false;
     isKeyboardSelection := false;
     showSettings := false;
     settings := default_settings;
     now := 0;
     timers := [];
     nextTimer := 1 |}.

(** ** Field updates *)

Definition set_query v s :=
  {| query := v; results := results s; selectedIndex := selectedIndex s;
     isLoading := isLoading s; searchTimeout := searchTimeout s;
     scrollTimeout := scrollTimeout s; latestSearchId := latestSearchId s;
     isKeyboardScroll := isKeyboardScroll s; isMouseScrolling := isMouseScrolling s;
     isKeyboardSelection := isKeyboardSelection s; showSettings := showSettings s;
     settings := settings s; now := now s; timers := timers s;
     nextTimer := nextTimer s |}.

Definition set_results v s :=
  {| query := query s; results := v; selectedIndex := selectedIndex s;
     isLoading := isLoading s; searchTimeout := searchTimeout s;
     scrollTimeout := scrollTimeout s; latestSearchId := latestSearchId s;
     isKeyboardScroll := isKeyboardScroll s; isMouseScrolling := isMouseScrolling s;
     isKeyboardSelection := isKeyboardSelection s; showSettings := showSettings s;
     settings := settings s; now := now s; timers := timers s;
     nextTimer := nextTimer s |}.

Definition set_selectedIndex v s :=
  {| query := query s; results := results s; selectedIndex := v;
     isLoading := isLoading s; searchTimeout := searchTimeout s;
     scrollTimeout := scrollTimeout s; latestSearchId := latestSearchId s;
     isKeyboardScroll := isKeyboardScroll s; isMouseScrolling := isMouseScrolling s;
     isKeyboardSelection := isKeyboardSelection s; showSettings := showSettings s;
     settings := settings s; now := now s; timers := timers s;
     nextTimer := nextTimer s |}.

Definition set_isLoading v s :=
  {| query := query s; results := results s; selectedIndex := selectedIndex s;
     isLoading := v; searchTimeout := searchTimeout s;
     scrollTimeout := scrollTimeout s; latestSearchId := latestSearchId s;
     isKeyboardScroll := isKeyboardScroll s; isMouseScrolling := isMouseScrolling s;
     isKeyboardSelection := isKeyboardSelection s; showSettings := showSettings s;
     settings := settings s; now := now s; timers := timers s;
     nextTimer := nextTimer s |}.

Definition set_searchTimeout v s :=
  {| query := query s; results := results s; selectedIndex := selectedIndex s;
     isLoading := isLoading s; searchTimeout := v;
     scrollTimeout := scrollTimeout s; latestSearchId := latestSearchId s;
     isKeyboardScroll := isKeyboardScroll s; isMouseScrolling := isMouseScrolling s;
     isKeyboardSelection := isKeyboardSelection s; showSettings := showSettings s;
     settings := settings s; now := now s; timers := timers s;
     nextTimer := nextTimer s |}.

Definition set_scrollTimeout v s :=
  {| query := query s; results := results s; selectedIndex := selectedIndex s;
     isLoading := isLoading s; searchTimeout := searchTimeout s;
     scrollTimeout := v; latestSearchId := latestSearchId s;
     isKeyboardScroll := isKeyboardScroll s; isMouseScrolling := isMouseScrolling s;
     isKeyboardSelection := isKeyboardSelection s; showSettings := showSettings s;
     settings := settings s; now := now s; timers := timers s;
     nextTimer := nextTimer s |}.

Definition set_latestSearchId v s :=
  {| query := query s; results := results s; selectedIndex := selectedIndex s;
     isLoading := isLoading s; searchTimeout := searchTimeout s;
     scrollTimeout := scrollTimeout s; latestSearchId := v;
     isKeyboardScroll := isKeyboardScroll s; isMouseScrolling := isMouseScrolling s;
     isKeyboardSelection := isKeyboardSelection s; showSettings := showSettings s;
     settings := settings s; now := now s; timers := timers s;
     nextTimer := nextTimer s |}.

Definition set_isKeyboardScroll v s :=
  {| query := query s; results := results s; selectedIndex := selectedIndex s;
     isLoading := isLoading s; searchTimeout := searchTimeout s;
     scrollTimeout := scrollTimeout s; latestSearchId := latestSearchId s;
     isKeyboardScroll := v; isMouseScrolling := isMouseScrolling s;
     isKeyboardSelection := isKeyboardSelection s; showSettings := showSettings s;
     settings := settings s; now := now s; timers := timers s;
     nextTimer := nextTimer s |}.

Definition set_isMouseScrolling v s :=
  {| query := query s; results := results s; selectedIndex := selectedIndex s;
     isLoading := isLoading s; searchTimeout := searchTimeout s;
     scrollTimeout := scrollTimeout s; latestSearchId := latestSearchId s;
     isKeyboardScroll := isKeyboardScroll s; isMouseScrolling := v;
     isKeyboardSelection := isKeyboardSelection s; showSettings := showSettings s;
     settings := settings s; now := now s; timers := timers s;
     nextTimer := nextTimer s |}.

Definition set_isKeyboardSelection v s :=
  {| query := query s; results := results s; selectedIndex := selectedIndex s;
     isLoading := isLoading s; searchTimeout := searchTimeout s;
     scrollTimeout := scrollTimeout s; latestSearchId := latestSearchId s;
     isKeyboardScroll := isKeyboardScroll s; isMouseScrolling := isMouseScrolling s;
     isKeyboardSelection := v; showSettings := showSettings s;
     settings := settings s; now := now s; timers := timers s;
     nextTimer := nextTimer s |}.

Definition set_showSettings v s :=
  {| query := query s; results := results s; selectedIndex := selectedIndex s;
     isLoading := isLoading s; searchTimeout := searchTimeout s;
     scrollTimeout := scrollTimeout s; latestSearchId := latestSearchId s;
     isKeyboardScroll := isKeyboardScroll s; isMouseScrolling := isMouseScrolling s;
     isKeyboardSelection := isKeyboardSelection s; showSettings := v;
     settings := settings s; now := now s; timers := timers s;
     nextTimer := nextTimer s |}.

Definition set_settings v s :=
  {| query := query s; results := results s; selectedIndex := selectedIndex s;
     isLoading := isLoading s; searchTimeout := searchTimeout s;
     scrollTimeout := scrollTimeout s; latestSearchId := latestSearchId s;
     isKeyboardScroll := isKeyboardScroll s; isMouseScrolling := isMouseScrolling s;
     isKeyboardSelection := isKeyboardSelection s; showSettings := showSettings s;
     settings := v; now := now s; timers := timers s;
     nextTimer := nextTimer s |}.

Definition set_now v s :=
  {| query := query s; results := results s; selectedIndex := selectedIndex s;
     isLoading := isLoading s; searchTimeout := searchTimeout s;
     scrollTimeout := scrollTimeout s; latestSearchId := latestSearchId s;
     isKeyboardScroll := isKeyboardScroll s; isMouseScrolling := isMouseScrolling s;
     isKeyboardSelection := isKeyboardSelection s; showSettings := showSettings s;
     settings := settings s; now := v; timers := timers s;
     nextTimer := nextTimer s |}.

Definition set_timers v s :=
  {| query := query s; results := results s; selectedIndex := selectedIndex s;
     isLoading := isLoading s; searchTimeout := searchTimeout s;
     scrollTimeout := scrollTimeout s; latestSearchId := latestSearchId s;
     isKeyboardScroll := isKeyboardScroll s; isMouseScrolling := isMouseScrolling s;
     isKeyboardSelection := isKeyboardSelection s; showSettings := showSettings s;
     settings := settings s; now := now s; timers := v;
     nextTimer := nextTimer s |}.

Definition set_nextTimer v s :=
  {| query := query s; results := results s; selectedIndex := selectedIndex s;
     isLoading := isLoading s; searchTimeout := searchTimeout s;
     scrollTimeout := scrollTimeout s; latestSearchId := latestSearchId s;
     isKeyboardScroll := isKeyboardScroll s; isMouseScrolling := isMouseScrolling s;
     isKeyboardSelection := isKeyboardSelection s; showSettings := showSettings s;
     settings := settings s; now := now s; timers := timers s;
     nextTimer := v |}.

Definition set_max_results v (a : AppSettings) :=
  {| max_results := v; enable_autostart := enable_autostart a;
     theme_bg_image := theme_bg_image a; theme_bg_opacity := theme_bg_opacity a;
     theme_bg_blur := theme_bg_blur a |}.

Definition set_enable_autostart v (a : AppSettings) :=
  {| max_results := max_results a; enable_autostart := v;
     theme_bg_image := theme_bg_image a; theme_bg_opacity := theme_bg_opacity a;
     theme_bg_blur := theme_bg_blur a |}.

Definition set_theme_bg_image v (a : AppSettings) :=
  {| max_results := max_results a; enable_autostart := enable_autostart a;
     theme_bg_image := v; theme_bg_opacity := theme_bg_opacity a;
     theme_bg_blur := theme_bg_blur a |}.

Definition set_theme_bg_opacity v (a : AppSettings) :=
  {| max_results := max_results a; enable_autostart := enable_autostart a;
     theme_bg_image := theme_bg_image a; theme_bg_opacity := v;
     theme_bg_blur := theme_bg_blur a |}.

Definition set_theme_bg_blur v (a : AppSettings) :=
  {| max_results := max_results a; enable_autostart := enable_autostart a;
     theme_bg_image := theme_bg_image a; theme_bg_opacity := theme_bg_opacity a;
     theme_bg_blur := v |}.

(** ** The handler monad: state, and the host calls made so far *)

Definition M (A : Type) : Type := State -> A * State * list Effect.

Definition ret {A} (a : A) : M A := fun s => (a, s, []).

Definition bind {A B} (m : M A) (k : A -> M B) : M B :=
  fun s =>
    let '(a, s1, o1) := m s in
    let '(b, s2, o2) := k a s1 in
    (b, s2, o1 ++ o2).

Declare Scope handler_scope.
Delimit Scope handler_scope with handler.
Notation "x <- m ;; k" := (bind m (fun x => k))
  (at level 61, m at next level, right associativity) : handler_scope.
Notation "m ;; k" := (bind m (fun _ => k))
  (at level 61, right associativity) : handler_scope.
Open Scope handler_scope.

Definition read {A} (f : State -> A) : M A := fun s => (f s, s, []).
Definition assign (f : State -> State) : M unit := fun s => (tt, f s, []).
Definition emit (e : Effect) : M unit := fun s => (tt, s, [e]).
Definition skip : M unit := ret tt.
Definition when (b : bool) (m : M unit) : M unit := if b then m else skip.

(** The state and the output of a handler that returns nothing. *)
Definition exec (m : M unit) (s : State) : State * list Effect :=
  let '(_, s1, o) := m s in (s1, o).

(** ** JavaScript operations the handlers use *)

(** [a % b] on integers: the sign of the result is the sign of [a]. *)
Definition js_rem (a b : Z) : Z := Z.rem a b.

(** [arr[i]] for an integer [i]: [undefined] outside the array. *)
Definition js_index {A} (arr : list A) (i : Z) : option A :=
  if (i <? 0)%Z then None else nth_error arr (Z.to_nat i).

(** [Number(x)] where [x] already has the type [number] that
    [AppSettings.max_results] declares. *)
Definition Number (x : number) : number := x.

(** [{ ...cur, ...saved }] *)
Definition spread (cur : AppSettings) (saved : SavedSettings) : AppSettings :=
  {| max_results := match saved_max_results saved with
                    | Some v => v | None => max_results cur end;
     enable_autostart := match saved_enable_autostart saved with
                         | Some v => v | None => enable_autostart cur end;
     theme_bg_image := match saved_theme_bg_image saved with
                       | Some v => v | None => theme_bg_image cur end;
     theme_bg_opacity := match saved_theme_bg_opacity saved with
                         | Some v => v | None => theme_bg_opacity cur end;
     theme_bg_blur := match saved_theme_bg_blur saved with
                      | Some v => v | None => theme_bg_blur cur end |}.

(** ** Timers *)

(** [setTimeout(c, delay)]: a new handle, the callback queued for
    [now + delay]. *)
Definition setTimeout (c : Callback) (delay : nat) : M nat :=
  fun s =>
    let h := nextTimer s in
    let t := {| tid := h; due := now s + delay; cb := c |} in
    (h, set_nextTimer (S h) (set_timers (timers s ++ [t]) s), []).

(** [clearTimeout(h)]: the timer of that handle leaves the queue; nothing
    happens when it has fired already. *)
Definition clearTimeout (h : nat) : M unit :=
  assign (fun s => set_timers (filter (fun t => negb (tid t =? h)) (timers s)) s).

(** [if (handle) clearTimeout(handle);] *)
Definition clear_if_set (handle : option nat) : M unit :=
  match handle with
  | Some h => clearTimeout h
  | None => skip
  end.

(** ** Core logic *)

Definition loadSettings : M unit := emit InvokeGetSettings.

Definition loadSettings_resume (r : Settled SavedSettings) : M unit :=
  match r with
  | Resolved saved =>
      cur <- read settings ;;
      assign (set_settings (spread cur saved)) ;;
      assign (fun s => set_settings (set_theme_bg_image FIXED_BG_PATH (settings s)) s)
  | Rejected e => emit (ConsoleError "加载设置失败:" e)
  end.

Definition performSearch (q : string) : M unit :=
  assign (fun s => set_latestSearchId (S (latestSearchId s)) s) ;;
  currentSearchId <- read latestSearchId ;;
  assign (set_isLoading true) ;;
  emit (InvokeSearch currentSearchId q).

(** The [finally] block of [performSearch]. *)
Definition performSearch_finally (currentSearchId : nat) : M unit :=
  latest <- read latestSearchId ;;
  when (currentSearchId =? latest) (assign (set_isLoading false)).

(** [performSearch] from its [await] on, for the call that owns
    [currentSearchId]. *)
Definition performSearch_resume (currentSearchId : nat)
    (r : Settled (list SearchResult)) : M unit :=
  match r with
  | Resolved res =>
      latest <- read latestSearchId ;;
      if negb (currentSearchId =? latest) then
        performSearch_finally currentSearchId
      else
        assign (set_results res) ;;
        assign (set_selectedIndex 0%Z) ;;
        performSearch_finally currentSearchId
  | Rejected e =>
      latest <- read latestSearchId ;;
      when (currentSearchId =? latest)
        (emit (ConsoleError "搜索失败:" e) ;;
         assign (set_results [])) ;;
      performSearch_finally currentSearchId
  end.

Definition saveSettings : M unit :=
  assign (fun s =>
    set_settings (set_max_results (Number (max_results (settings s))) (settings s)) s) ;;
  assign (fun s => set_settings (set_theme_bg_image FIXED_BG_PATH (settings s)) s) ;;
  newSettings <- read settings ;;
  emit (InvokeSaveSettings newSettings).

Definition saveSettings_resume (r : Settled unit) : M unit :=
  match r with
  | Resolved _ =>
      assign (set_showSettings false) ;;
      emit FocusInput ;;
      q <- read query ;;
      performSearch q
  | Rejected e => emit (ConsoleError "保存设置失败:" e)
  end.

Definition toggleSettings : M unit :=
  shown <- read showSettings ;;
  if negb shown then
    loadSettings ;;
    assign (set_showSettings true)
  else
    assign (set_showSettings false) ;;
    emit FocusInput.

(** ** The watcher on [selectedIndex] *)

(** [resultListRef.value] is the result area of the main view, which the
    template renders under [v-if="!showSettings"]. *)
Definition resultListRef (s : State) : bool := negb (showSettings s).

(** The template's [v-if="query && results.length === 0 && !isLoading"]. *)
Definition empty_state (s : State) : bool :=
  negb (String.length (query s) =? 0) && (List.length (results s) =? 0)
  && negb (isLoading s).

(** [resultListRef.value.children.length]: one row per result, and the
    empty-state block when it is shown. *)
Definition children_length (s : State) : Z :=
  (Z.of_nat (List.length (results s)) + if empty_state s then 1 else 0)%Z.

Definition watch_selectedIndex (newIndex : Z) : M unit :=
  kb <- read isKeyboardScroll ;;
  list <- read resultListRef ;;
  if negb kb || negb list then skip
  else
    n <- read children_length ;;
    if (newIndex >=? n)%Z then skip
    else
      when (0 <=? newIndex)%Z (emit (ScrollIntoView newIndex)) ;;
      assign (set_isKeyboardScroll false).

(** ** Event handlers *)

Definition handleListScroll : M unit :=
  assign (set_isMouseScrolling true) ;;
  handle <- read scrollTimeout ;;
  clear_if_set handle ;;
  h <- setTimeout CbScrollEnd 150 ;;
  assign (set_scrollTimeout (Some h)).

Definition handleMouseMove (index movementX movementY : Z) : M unit :=
  scrolling <- read isMouseScrolling ;;
  if scrolling then skip
  else if (movementX =? 0)%Z && (movementY =? 0)%Z then skip
  else
    assign (set_selectedIndex index) ;;
    assign (set_isKeyboardSelection false).

Definition hideWindow : M unit := emit WindowHide.

Definition handleInput : M unit :=
  handle <- read searchTimeout ;;
  clear_if_set handle ;;
  assign (set_isLoading true) ;;
  h <- setTimeout CbSearch 100 ;;
  assign (set_searchTimeout (Some h)).

Definition handleExecute (item : option SearchResult) : M unit :=
  match item with
  | None => skip
  | Some it =>
      q <- read query ;;
      emit (InvokeExecuteItem (id it) q)
  end.

Definition handleExecute_resume (r : Settled unit) : M unit :=
  match r with
  | Resolved _ => skip
  | Rejected e => emit (ConsoleError "执行失败" e)
  end.

Definition handleKeyDown (key : string) : M unit :=
  when ((key =? "ArrowDown")%string || (key =? "ArrowUp")%string)
    (emit PreventDefault) ;;
  if (key =? "Escape")%string then
    q <- read query ;;
    if 0 <? String.length q then
      assign (set_query "") ;;
      performSearch ""
    else
      hideWindow
  else
    res <- read results ;;
    if List.length res =? 0 then skip
    else
      assign (set_isKeyboardScroll true) ;;
      assign (set_isKeyboardSelection true) ;;
      let n := Z.of_nat (List.length res) in
      if (key =? "ArrowDown")%string then
        assign (fun s => set_selectedIndex (js_rem (selectedIndex s + 1) n) s)
      else if (key =? "ArrowUp")%string then
        assign (fun s => set_selectedIndex (js_rem (selectedIndex s - 1 + n) n) s)
      else if (key =? "Enter")%string then
        i <- read selectedIndex ;;
        match js_index res i with
        | Some item => handleExecute (Some item)
        | None => skip
        end
      else skip.

(** The callbacks given to [setTimeout]. *)
Definition run_callback (c : Callback) : M unit :=
  match c with
  | CbSearch => q <- read query ;; performSearch q
  | CbScrollEnd => assign (set_isMouseScrolling false)
  end.

(** ** The host: events, the clock and the event loop *)

Inductive Event :=
| Mounted                                   (* onMounted: await loadSettings() *)
| Input (v : string)                        (* v-model="query", then @input *)
| KeyDown (key : string)                    (* @keydown on the query input *)
| MouseMove (index movementX movementY : Z) (* @mousemove on row [index] *)
| ListScroll                                (* @scroll on the result area *)
| ClickItem (index : Z)                     (* @click on row [index] *)
| ClickSettings                             (* footer, close and cancel buttons *)
| ClickSave                                 (* the save button *)
| EditMaxResults (v : number)               (* v-model="settings.max_results" *)
| EditAutostart (v : bool)                  (* v-model="settings.enable_autostart" *)
| EditOpacity (v : number)                  (* v-model.number="settings.theme_bg_opacity" *)
| EditBlur (v : number)                     (* v-model.number="settings.theme_bg_blur" *)
| SearchSettled (currentSearchId : nat) (r : Settled (list SearchResult))
| GetSettingsSettled (r : Settled SavedSettings)
| SaveSettingsSettled (r : Settled unit)
| ExecuteSettled (r : Settled unit).

Definition edit (f : AppSettings -> AppSettings) : M unit :=
  assign (fun s => set_settings (f (settings s)) s).

Definition handle (e : Event) : M unit :=
  match e with
  | Mounted => loadSettings
  | Input v => assign (set_query v) ;; handleInput
  | KeyDown key => handleKeyDown key
  | MouseMove index movementX movementY => handleMouseMove index movementX movementY
  | ListScroll => handleListScroll
  | ClickItem index => res <- read results ;; handleExecute (js_index res index)
  | ClickSettings => toggleSettings
  | ClickSave => saveSettings
  | EditMaxResults v => edit (set_max_results v)
  | EditAutostart v => edit (set_enable_autostart v)
  | EditOpacity v => edit (set_theme_bg_opacity v)
  | EditBlur v => edit (set_theme_bg_blur v)
  | SearchSettled currentSearchId r => performSearch_resume currentSearchId r
  | GetSettingsSettled r => loadSettings_resume r
  | SaveSettingsSettled r => saveSettings_resume r
  | ExecuteSettled r => handleExecute_resume r
  end.

(** One task of the event loop: the handler, then, when it left
    [selectedIndex] with another value, the watcher's callback (Vue runs it
    before the next task). *)
Definition step (e : Event) : M unit :=
  old <- read selectedIndex ;;
  handle e ;;
  newIndex <- read selectedIndex ;;
  when (negb (newIndex =? old)%Z) (watch_selectedIndex newIndex).

(** Timers that are due fire in the order of their due times, and in the
    order they were set when these agree. *)
Fixpoint insert_by_due (t : Timer) (l : list Timer) : list Timer :=
  match l with
  | [] => [t]
  | u :: l' => if due t <=? due u then t :: l else u :: insert_by_due t l'
  end.

Definition sort_by_due (l : list Timer) : list Timer :=
  fold_right insert_by_due [] l.

Fixpoint run_callbacks (l : list Timer) : M unit :=
  match l with
  | [] => skip
  | t :: l' => run_callback (cb t) ;; run_callbacks l'
  end.

Definition is_due (target : nat) (t : Timer) : bool := due t <=? target.

(** The clock moves on by [d] ms; a timer fires once the clock has reached
    its due time. *)
Definition advance (d : nat) : M unit :=
  t0 <- read now ;;
  pending <- read timers ;;
  let target := t0 + d in
  assign (set_now target) ;;
  assign (set_timers (filter (fun t => negb (is_due target t)) pending)) ;;
  run_callbacks (sort_by_due (filter (is_due target) pending)).

(** An event with the time that passed since the one before it. *)
Definition tstep (te : nat * Event) : M unit :=
  advance (fst te) ;; step (snd te).

Fixpoint run (tr : list (nat * Event)) : M unit :=
  match tr with
  | [] => skip
  | te :: tr' => tstep te ;; run tr'
  end.

Definition state_of (m : M unit) (s : State) : State := fst (exec m s).
Definition output_of (m : M unit) (s : State) : list Effect := snd (exec m s).

(** The states the component can be in. *)
Inductive reachable : State -> Prop :=
| reachable_init : reachable init
| reachable_step : forall s te, reachable s -> reachable (state_of (tstep te) s).

(** ** Notions the properties are stated with *)

(** The result list that applying a settled search leaves on screen. *)
Definition shown (r : Settled (list SearchResult)) : list SearchResult :=
  match r with
  | Resolved res => res
  | Rejected _ => []
  end.

(** A settled search is accepted in [s] when its token is the current one. *)
Definition accepted_by (s : State) (e : Event)
    : list (nat * Settled (list SearchResult)) :=
  match e with
  | SearchSettled currentSearchId r =>
      if currentSearchId =? latestSearchId s then [(currentSearchId, r)] else []
  | _ => []
  end.

(** The accepted arrivals of a trace, oldest first. *)
Fixpoint accepted (tr : list (nat * Event)) (s : State)
    : list (nat * Settled (list SearchResult)) :=
  match tr with
  | [] => []
  | te :: tr' =>
      accepted_by (state_of (advance (fst te)) s) (snd te)
      ++ accepted tr' (state_of (tstep te) s)
  end.

(** The [search] calls of an output: token and query, in the order made. *)
Definition search_calls (o : list Effect) : list (nat * string) :=
  flat_map (fun e => match e with
                     | InvokeSearch t q => [(t, q)]
                     | _ => []
                     end) o.

Definition is_search_timer (t : Timer) : bool :=
  match cb t with CbSearch => true | CbScrollEnd => false end.

Definition is_scroll_timer (t : Timer) : bool :=
  match cb t with CbSearch => false | CbScrollEnd => true end.

Definition search_timers (s : State) : list Timer :=
  filter is_search_timer (timers s).

(** The two handles name the pending timers: a queued debounce timer is the
    one [searchTimeout] holds, a queued scroll timer the one [scrollTimeout]
    holds, both handles were given out already, and they differ. *)
Record timers_ok (s : State) : Prop := {
  ok_search : forall t, In t (timers s) -> cb t = CbSearch ->
                        searchTimeout s = Some (tid t);
  ok_scroll : forall t, In t (timers s) -> cb t = CbScrollEnd ->
                        scrollTimeout s = Some (tid t);
  ok_search_old : forall h, searchTimeout s = Some h -> h < nextTimer s;
  ok_scroll_old : forall h, scrollTimeout s = Some h -> h < nextTimer s;
  ok_distinct : forall h, searchTimeout s = Some h -> scrollTimeout s <> Some h
}.

(** The queue after [if (handle) clearTimeout(handle)]. *)
Definition cleared (handle : option nat) (l : list Timer) : list Timer :=
  match handle with
  | Some h => filter (fun t => negb (tid t =? h)) l
  | None => l
  end.

(** The queue after that and [setTimeout(c, delay)]. *)
Definition rearmed (handle : option nat) (c : Callback) (delay : nat)
    (s : State) : list Timer :=
  cleared handle (timers s)
  ++ [{| tid := nextTimer s; due := now s + delay; cb := c |}].

(** While the scroll-suppression window is known to last until [D]: the
    flag is set and no queued scroll timer is due before [D]. *)
Definition suppressed_until (D : nat) (s : State) : Prop :=
  isMouseScrolling s = true
  /\ D <= now s + 150
  /\ forall t, In t (timers s) -> cb t = CbScrollEnd -> D <= due t.

(** The suppression window ends by [D]: if the flag is set, a queued scroll
    timer is due by then. *)
Definition released_by (D : nat) (s : State) : Prop :=
  isMouseScrolling s = true ->
  exists t, In t (timers s) /\ cb t = CbScrollEnd /\ due t <= D.

(** During a burst: one debounce timer is queued, due 100 ms after the last
    input change, and no search was issued since the burst began. *)
Definition debouncing (v : string) (L : nat) (s : State) : Prop :=
  timers_ok s
  /\ query s = v
  /\ latestSearchId s = L
  /\ exists t, search_timers s = [t] /\ due t = now s + 100.

(** The time a trace takes. *)
Definition elapsed (tr : list (nat * Event)) : nat :=
  list_sum (map fst tr).

(** A burst of input changes: each new value with the gap before it. *)
Definition typing (burst : list (nat * string)) : list (nat * Event) :=
  map (fun p => (fst p, Input (snd p))) burst.

Definition is_scroll_event (e : Event) : bool :=
  match e with ListScroll => true | _ => false end.

(** The rows the template renders are those of [results]: a pointer event
    names one of them. *)
Definition deliverable (s : State) (e : Event) : Prop :=
  match e with
  | MouseMove index _ _ | ClickItem index =>
      (0 <= index < Z.of_nat (List.length (results s)))%Z
  | _ => True
  end.

(** A trace whose pointer events all name rendered rows. *)
Fixpoint deliverable_trace (tr : list (nat * Event)) (s : State) : Prop :=
  match tr with
  | [] => True
  | te :: tr' =>
      deliverable (state_of (advance (fst te)) s) (snd te)
      /\ deliverable_trace tr' (state_of (tstep te) s)
  end.

(** [SelectionIndex] names a row whenever there are rows. *)
Definition selection_valid (s : State) : Prop :=
  results s <> [] ->
  (0 <= selectedIndex s < Z.of_nat (List.length (results s)))%Z.

(** [k] presses of one key. *)
Definition presses (key : string) (k : nat) (s : State) : State :=
  Nat.iter k (state_of (step (KeyDown key))) s.

(** Two states that differ at most in [isKeyboardScroll], which the
    watcher's callback may have cleared. *)
Definition up_to_scroll_gate (s s' : State) : Prop :=
  s' = s \/ s' = set_isKeyboardScroll false s.

(** The list on screen after the accepted arrivals [acc], oldest first. *)
Definition visible (acc : list (nat * Settled (list SearchResult)))
    (before : list SearchResult) : list SearchResult :=
  match rev acc with
  | [] => before
  | p :: _ => shown (snd p)
  end.

(** Order of accepted arrivals by token. *)
Definition older_or_same (p q : nat * Settled (list SearchResult)) : Prop :=
  fst p <= fst q.

(** ** Sample data *)

Definition item (name : string) : SearchResult :=
  {| id := name; title := name; subtitle := ""; score := 1 # 1;
     action_type := "file"; action_data := name; file_type := "File" |}.

(** Two searches are issued; the answer to the second arrives before the
    answer to the first. *)
Definition out_of_order : list (nat * Event) :=
  [ (0, Input "a"); (100, Input "ab");
    (100, SearchSettled 2 (Resolved [item "ab.txt"]));
    (5, SearchSettled 1 (Resolved [item "a.txt"; item "ab.txt"])) ].

(** A search for "a" returns two rows, Down selects the second, and the
    search for the next input fails. *)
Definition before_failed_search : list (nat * Event) :=
  [ (0, Input "a");
    (100, SearchSettled 1 (Resolved [item "a.txt"; item "ab.txt"]));
    (10, KeyDown "ArrowDown");
    (10, Input "ab") ].

(** The state in which the answer to that second search is awaited. *)
Definition awaiting_second_answer : State :=
  state_of (advance 100) (state_of (run before_failed_search) init).

(** A store that persisted another background image. *)
Definition persisted : SavedSettings :=
  {| saved_max_results := Some (50 # 1);
     saved_enable_autostart := Some true;
     saved_theme_bg_image := Some "C:/wallpapers/sea.png";
     saved_theme_bg_opacity := Some (1 # 2);
     saved_theme_bg_blur := Some (4 # 1) |}.

(** The settings panel has been opened and the store has answered. *)
Definition panel_open : State :=
  state_of (run [ (0, ClickSettings);
                  (20, GetSettingsSettled (Resolved persisted)) ]) init.

(** A store that answers with every field of [a]. *)
Definition snapshot (a : AppSettings) : SavedSettings :=
  {| saved_max_results := Some (max_results a);
     saved_enable_autostart := Some (enable_autostart a);
     saved_theme_bg_image := Some (theme_bg_image a);
     saved_theme_bg_opacity := Some (theme_bg_opacity a);
     saved_theme_bg_blur := Some (theme_bg_blur a) |}.

(** Two rows on screen, the first selected, the mouse at rest. *)
Definition two_rows : State :=
  state_of (run [ (0, Input "a");
                  (100, SearchSettled 1 (Resolved [item "a.txt"; item "ab.txt"])) ])
           init.

(** ** Teardown *)

(** [onUnmounted].  [unlisten] tells whether [onMounted] has stored the
    function that ends the [window-focused] subscription; the result tells
    whether that function is called. *)
Definition onUnmounted (unlisten : bool) : M bool :=
  let called := if unlisten then true else false in
  h1 <- read searchTimeout ;;
  clear_if_set h1 ;;
  h2 <- read scrollTimeout ;;
  clear_if_set h2 ;;
  ret called.

(** The state [onUnmounted] leaves. *)
Definition unmounted (unlisten : bool) (s : State) : State :=
  snd (fst (onUnmounted unlisten s)).

(** ** Further notions *)

(** The handles in the queue are pairwise different and were all given out
    by [setTimeout] already. *)
Definition timers_distinct (s : State) : Prop :=
  NoDup (map tid (timers s))
  /\ forall t, In t (timers s) -> tid t < nextTimer s.

(** The events that neither set the debounce timer nor issue a search:
    all but an input change, Escape, and a save that succeeded. *)
Definition neutral (e : Event) : bool :=
  match e with
  | Input _ => false
  | KeyDown key => negb (key =? "Escape")%string
  | SaveSettingsSettled (Resolved _) => false
  | _ => true
  end.

(** A search for [v] is pending until [D]: one debounce timer is queued,
    due at [D], which is still ahead; [L] is the current token. *)
Definition pending_search (v : string) (L D : nat) (s : State) : Prop :=
  timers_ok s
  /\ query s = v
  /\ latestSearchId s = L
  /\ now s < D
  /\ exists t, search_timers s = [t] /\ due t = D.

(** Two states that differ at most in [isKeyboardSelection]. *)
Definition same_but_selection_gate (s1 s2 : State) : Prop :=
  set_isKeyboardSelection false s1 = set_isKeyboardSelection false s2.

(** A computation that does not read [isKeyboardSelection]: from two
    states that differ at most there it makes the same host calls and ends
    in two states that differ at most there. *)
Definition ignores_selection_gate (m : M unit) : Prop :=
  forall s1 s2,
    same_but_selection_gate s1 s2 ->
    output_of m s1 = output_of m s2
    /\ same_but_selection_gate (state_of m s1) (state_of m s2).

(** ** View helpers: the icon of a row *)

Inductive Icon :=
| AppWindow | ImageIcon | FileText | Film | Music | Folder | File.

(** The alternatives of the four regular expressions. *)
Definition image_extensions : list string :=
  ["png"; "jpg"; "jpeg"; "svg"; "bmp"; "webp"].
Definition text_extensions : list string :=
  ["txt"; "md"; "doc"; "docx"; "pdf"; "xls"; "xlsx"; "ppt"; "pptx"].
Definition film_extensions : list string :=
  ["mp4"; "mkv"; "avi"; "mov"; "webm"].
Definition music_extensions : list string :=
  ["mp3"; "wav"; "flac"; "aac"].

(** A pattern [\.ext$] is tried at every position of the path; it matches at
    one where what is left of the path is exactly [.ext]. *)
Fixpoint ends_with (suffix path : string) : bool :=
  (path =? suffix)%string
  || match path with
     | EmptyString => false
     | String _ rest => ends_with suffix rest
     end.

(** [/\.(e1|e2|...)$/.test(path)] *)
Definition test_extensions (exts : list string) (path : string) : bool :=
  existsb (fun e => ends_with (String "." e) path) exts.

Section Icons.

(** [String.prototype.toLowerCase], whose Unicode tables are not part of
    the component. *)
Variable toLowerCase : string -> string.

Definition getIconComponent (item : SearchResult) : Icon :=
  if (action_type item =? "app")%string
     || (file_type item =? "Application")%string then AppWindow
  else
    let path := toLowerCase (id item) in
    if test_extensions image_extensions path then ImageIcon
    else if test_extensions text_extensions path then FileText
    else if test_extensions film_extensions path then Film
    else if test_extensions music_extensions path then Music
    else if (file_type item =? "Directory")%string
            || (file_type item =? "Folder")%string then Folder
    else File.

End Icons.

(** *** The icon, told by the last extension *)

(** What follows the last dot of a path, when it has a dot. *)
Fixpoint extension (path : string) : option string :=
  match path with
  | EmptyString => None
  | String c rest =>
      match extension rest with
      | Some e => Some e
      | None => if (c =? ".")%char then Some rest else None
      end
  end.

Definition known (exts : list string) (e : string) : bool :=
  existsb (String.eqb e) exts.

Definition icon_of_extension (e : string) : option Icon :=
  if known image_extensions e then Some ImageIcon
  else if known text_extensions e then Some FileText
  else if known film_extensions e then Some Film
  else if known music_extensions e then Some Music
  else None.

Definition icon_of_kind (item : SearchResult) : Icon :=
  if (file_type item =? "Directory")%string
     || (file_type item =? "Folder")%string then Folder
  else File.

Fixpoint has_dot (s : string) : bool :=
  match s with
  | EmptyString => false
  | String c rest => (c =? ".")%char || has_dot rest
  end.

(** ** View helpers: highlighting the query in a title *)

(** [highlightText] looks into its strings, so here a string is the list of
    its UTF-16 code units. *)
Definition jsstring := list N.

(** An ASCII literal of the source. *)
Definition units (s : string) : jsstring :=
  map N_of_ascii (list_ascii_of_string s).

Definition amp : N := 38.
Definition lt : N := 60.
Definition gt : N := 62.
Definition quote : N := 34.
Definition backslash : N := 92.
Definition open_paren : N := 40.
Definition close_paren : N := 41.

(** [s.replace(/c/g, rep)] for a pattern of one code unit and a replacement
    without [$]. *)
Definition replace_unit (c : N) (rep s : jsstring) : jsstring :=
  flat_map (fun u => if (u =? c)%N then rep else [u]) s.

(** [text.replace(/&/g, "&amp;").replace(/</g, "&lt;").replace(/>/g, "&gt;")] *)
Definition escape_html (text : jsstring) : jsstring :=
  replace_unit gt (units "&gt;")
    (replace_unit lt (units "&lt;")
       (replace_unit amp (units "&amp;") text)).

(** The class [[.*+?^${}()|[\]\\]]. *)
Definition is_syntax_character (c : N) : bool :=
  existsb (N.eqb c) (units ".*+?^${}()|[]\").

(** [keyword.replace(/[.*+?^${}()|[\]\\]/g, '\\$&')] *)
Definition regex_escape (keyword : jsstring) : jsstring :=
  flat_map (fun u => if is_syntax_character u then [backslash; u] else [u])
           keyword.

(** What [new RegExp(source)] reads after an opening parenthesis, when the
    group holds characters and escaped syntax characters only and ends the
    pattern: the string the group matches.  [None] stands for every other
    pattern, which this model does not cover. *)
Fixpoint literal_group (source : jsstring) : option jsstring :=
  match source with
  | [] => None
  | c :: rest =>
      if (c =? close_paren)%N then
        match rest with
        | [] => Some []
        | _ :: _ => None
        end
      else if (c =? backslash)%N then
        match rest with
        | e :: rest' =>
            if is_syntax_character e
            then option_map (cons e) (literal_group rest')
            else None
        | [] => None
        end
      else if is_syntax_character c then None
      else option_map (cons c) (literal_group rest)
  end.

(** [new RegExp(source, "gi")] for such a pattern. *)
Definition compile (source : jsstring) : option jsstring :=
  match source with
  | c :: rest => if (c =? open_paren)%N then literal_group rest else None
  | [] => None
  end.

(** [<span class="highlight">] and [</span>] *)
Definition span_open : jsstring :=
  units "<span class=" ++ [quote] ++ units "highlight" ++ [quote] ++ units ">".
Definition span_close : jsstring := units "</span>".

Section Highlight.

(** The [Canonicalize] operation of ECMAScript for a pattern with the flag
    [i] and without the flag [u]; it rests on the Unicode case tables. *)
Variable Canonicalize : N -> N.

(** The literal matches at the head of the text, unit by unit. *)
Fixpoint matches_here (literal text : jsstring) : bool :=
  match literal, text with
  | [], _ => true
  | _ :: _, [] => false
  | p :: literal', c :: text' =>
      (Canonicalize p =? Canonicalize c)%N && matches_here literal' text'
  end.

(** [text.replace(regex, '<span class="highlight">$1</span>')] for the
    global pattern of one group around [literal]: the text is read from the
    left; where the literal matches, the units matched are put between the
    two tags and reading goes on behind them ([skip] counts the units of the
    last match that are still ahead). *)
Fixpoint replace_matches (literal : jsstring) (skip : nat) (text : jsstring)
    : jsstring :=
  match text with
  | [] => []
  | c :: rest =>
      match skip with
      | S k => replace_matches literal k rest
      | O =>
          if matches_here literal text then
            span_open ++ firstn (List.length literal) text ++ span_close
            ++ replace_matches literal (List.length literal - 1) rest
          else c :: replace_matches literal 0 rest
      end
  end.

Definition highlightText (text keyword : jsstring) : option jsstring :=
  match keyword, text with
  | [], _ | _, [] => Some text
  | _ :: _, _ :: _ =>
      let safeText := escape_html text in
      let safeKeyword := regex_escape keyword in
      match compile (units "(" ++ safeKeyword ++ units ")") with
      | Some literal => Some (replace_matches literal 0 safeText)
      | None => None
      end
  end.

End Highlight.

(** The text of a piece of markup: what is left when every tag, from its
    [<] to the next [>], is taken out. *)
Fixpoint strip_tags (inside : bool) (s : jsstring) : jsstring :=
  match s with
  | [] => []
  | c :: rest =>
      if inside then strip_tags (negb (c =? gt)%N) rest
      else if (c =? lt)%N then strip_tags true rest
      else c :: strip_tags false rest
  end.

(** Upper case for the ASCII letters, to try the highlighting with. *)
Definition upper_ascii (c : N) : N :=
  if ((97 <=? c) && (c <=? 122))%N then (c - 32)%N else c.

(** ** Laws of the handler monad *)

Lemma exec_bind (m k : M unit) (s : State) :
  exec (m ;; k) s =
  (state_of k (state_of m s), output_of m s ++ output_of k (state_of m s)).
Proof.
  unfold exec, state_of, output_of, exec, bind.
  destruct (m s) as [[[] s1] o1]. simpl.
  destruct (k s1) as [[[] s2] o2]. reflexivity.
Qed.

Lemma state_of_bind (m k : M unit) (s : State) :
  state_of (m ;; k) s = state_of k (state_of m s).
Proof. unfold state_of at 1. rewrite exec_bind. reflexivity. Qed.

Lemma output_of_bind (m k : M unit) (s : State) :
  output_of (m ;; k) s = output_of m s ++ output_of k (state_of m s).
Proof. unfold output_of at 1. rewrite exec_bind. reflexivity. Qed.

Lemma exec_pair (m : M unit) (s : State) :
  exec m s = (state_of m s, output_of m s).
Proof. unfold state_of, output_of. destruct (exec m s); reflexivity. Qed.

Lemma state_of_run_app (tr1 tr2 : list (nat * Event)) (s : State) :
  state_of (run (tr1 ++ tr2)) s = state_of (run tr2) (state_of (run tr1) s).
Proof.
  revert s. induction tr1 as [|te tr1 IH]; intro s; simpl.
  - reflexivity.
  - rewrite !state_of_bind. apply IH.
Qed.

Lemma reachable_run (tr : list (nat * Event)) (s : State) :
  reachable s -> reachable (state_of (run tr) s).
Proof.
  revert s. induction tr as [|te tr IH]; intros s Hs; simpl.
  - exact Hs.
  - rewrite state_of_bind. apply IH. now constructor.
Qed.

Lemma exec_step (e : Event) (s : State) :
  exec (step e) s =
  let s1 := state_of (handle e) s in
  if (selectedIndex s1 =? selectedIndex s)%Z then exec (handle e) s
  else (state_of (watch_selectedIndex (selectedIndex s1)) s1,
        output_of (handle e) s
        ++ output_of (watch_selectedIndex (selectedIndex s1)) s1).
Proof.
  unfold step, state_of, output_of, exec, bind, read, when, skip, ret.
  destruct (handle e s) as [[[] s1] o1]. simpl.
  destruct (selectedIndex s1 =? selectedIndex s)%Z; simpl.
  - now rewrite app_nil_r.
  - destruct (watch_selectedIndex (selectedIndex s1) s1) as [[[] s2] o2].
    reflexivity.
Qed.

Lemma exec_step_same_index (e : Event) (s : State) :
  selectedIndex (state_of (handle e) s) = selectedIndex s ->
  exec (step e) s = exec (handle e) s.
Proof.
  intro H. rewrite exec_step. cbv zeta. rewrite H, Z.eqb_refl. reflexivity.
Qed.

(** Unfolds a handler down to the record it builds. *)
Ltac handler :=
  unfold state_of, output_of, exec;
  cbv [handle performSearch performSearch_resume performSearch_finally
       loadSettings loadSettings_resume saveSettings saveSettings_resume
       toggleSettings handleListScroll handleMouseMove hideWindow handleInput
       handleExecute handleExecute_resume handleKeyDown run_callback edit
       watch_selectedIndex clear_if_set clearTimeout setTimeout
       bind ret read assign emit skip when];
  cbn [fst snd app].

(** ** The search coordinator *)

Lemma performSearch_spec (q : string) (s : State) :
  exec (performSearch q) s =
  (set_isLoading true (set_latestSearchId (S (latestSearchId s)) s),
   [InvokeSearch (S (latestSearchId s)) q]).
Proof. reflexivity. Qed.

Lemma stale_resume (t : nat) (r : Settled (list SearchResult)) (s : State) :
  t <> latestSearchId s ->
  exec (performSearch_resume t r) s = (s, []).
Proof.
  intro H. apply Nat.eqb_neq in H.
  destruct r; handler; rewrite H; simpl; rewrite H; reflexivity.
Qed.

Lemma stale_step (t : nat) (r : Settled (list SearchResult)) (s : State) :
  t <> latestSearchId s ->
  exec (step (SearchSettled t r)) s = (s, []).
Proof.
  intro H. rewrite exec_step_same_index; simpl handle.
  - now apply stale_resume.
  - unfold state_of. now rewrite stale_resume.
Qed.

(** ** The clock *)

Lemma exec_advance (d : nat) (s : State) :
  exec (advance d) s =
  exec (run_callbacks (sort_by_due (filter (is_due (now s + d)) (timers s))))
       (set_timers (filter (fun t => negb (is_due (now s + d) t)) (timers s))
                   (set_now (now s + d) s)).
Proof.
  unfold advance, exec, bind, read, assign. simpl.
  destruct (run_callbacks _ _) as [[[] s1] o1]. reflexivity.
Qed.

Lemma state_of_advance (d : nat) (s : State) :
  state_of (advance d) s =
  state_of (run_callbacks (sort_by_due (filter (is_due (now s + d)) (timers s))))
       (set_timers (filter (fun t => negb (is_due (now s + d) t)) (timers s))
                   (set_now (now s + d) s)).
Proof. unfold state_of. now rewrite exec_advance. Qed.

Lemma output_of_advance (d : nat) (s : State) :
  output_of (advance d) s =
  output_of (run_callbacks (sort_by_due (filter (is_due (now s + d)) (timers s))))
       (set_timers (filter (fun t => negb (is_due (now s + d) t)) (timers s))
                   (set_now (now s + d) s)).
Proof. unfold output_of. now rewrite exec_advance. Qed.

Lemma In_insert_by_due (t u : Timer) (l : list Timer) :
  In u (insert_by_due t l) <-> u = t \/ In u l.
Proof.
  induction l as [|v l IH]; simpl.
  - intuition congruence.
  - destruct (due t <=? due v); simpl; rewrite ?IH; intuition congruence.
Qed.

Lemma In_sort_by_due (u : Timer) (l : list Timer) :
  In u (sort_by_due l) <-> In u l.
Proof.
  induction l as [|v l IH]; simpl.
  - tauto.
  - rewrite In_insert_by_due, IH. intuition congruence.
Qed.

Lemma count_insert_by_due (p : Timer -> bool) (t : Timer) (l : list Timer) :
  List.length (filter p (insert_by_due t l)) = List.length (filter p (t :: l)).
Proof.
  induction l as [|v l IH]; simpl in *.
  - reflexivity.
  - destruct (due t <=? due v); simpl.
    + reflexivity.
    + destruct (p v), (p t); simpl in *; lia.
Qed.

Lemma count_sort_by_due (p : Timer -> bool) (l : list Timer) :
  List.length (filter p (sort_by_due l)) = List.length (filter p l).
Proof.
  induction l as [|v l IH]; simpl.
  - reflexivity.
  - rewrite count_insert_by_due. simpl. destruct (p v); simpl; lia.
Qed.

(** A field that no timer callback writes keeps its value. *)
Lemma run_callbacks_frame {A} (f : State -> A) (l : list Timer) :
  (forall c s, f (state_of (run_callback c) s) = f s) ->
  forall s, f (state_of (run_callbacks l) s) = f s.
Proof.
  intro Hf. induction l as [|t l' IH]; intro s; simpl.
  - reflexivity.
  - rewrite state_of_bind, IH. apply Hf.
Qed.

Lemma run_callbacks_latestSearchId (l : list Timer) (s : State) :
  latestSearchId (state_of (run_callbacks l) s)
  = latestSearchId s + List.length (filter is_search_timer l).
Proof.
  revert s. induction l as [|t l' IH]; intro s; simpl.
  - change (state_of skip s) with s. lia.
  - rewrite state_of_bind, IH. unfold is_search_timer at 2.
    destruct (cb t); simpl; lia.
Qed.

Lemma run_callbacks_output (l : list Timer) (s : State) :
  output_of (run_callbacks l) s
  = map (fun t => InvokeSearch t (query s))
        (seq (S (latestSearchId s)) (List.length (filter is_search_timer l))).
Proof.
  revert s. induction l as [|t l' IH]; intro s; simpl.
  - reflexivity.
  - rewrite output_of_bind, IH. unfold is_search_timer at 2.
    destruct (cb t); reflexivity.
Qed.

Lemma run_callbacks_isMouseScrolling (l : list Timer) (s : State) :
  isMouseScrolling (state_of (run_callbacks l) s)
  = if existsb is_scroll_timer l then false else isMouseScrolling s.
Proof.
  revert s. induction l as [|t l' IH]; intro s; simpl.
  - reflexivity.
  - rewrite state_of_bind, IH. unfold is_scroll_timer at 2.
    destruct (cb t); simpl; now destruct (existsb is_scroll_timer l').
Qed.

Ltac callback_frame :=
  let c := fresh "c" in let s := fresh "s" in
  intros c s; destruct c; reflexivity.

Lemma advance_results d s : results (state_of (advance d) s) = results s.
Proof.
  rewrite state_of_advance, (run_callbacks_frame results); [reflexivity | callback_frame].
Qed.

Lemma advance_selectedIndex d s :
  selectedIndex (state_of (advance d) s) = selectedIndex s.
Proof.
  rewrite state_of_advance, (run_callbacks_frame selectedIndex);
    [reflexivity | callback_frame].
Qed.

Lemma advance_query d s : query (state_of (advance d) s) = query s.
Proof.
  rewrite state_of_advance, (run_callbacks_frame query);
    [reflexivity | callback_frame].
Qed.

Lemma advance_settings d s : settings (state_of (advance d) s) = settings s.
Proof.
  rewrite state_of_advance, (run_callbacks_frame settings);
    [reflexivity | callback_frame].
Qed.

Lemma advance_now d s : now (state_of (advance d) s) = now s + d.
Proof.
  rewrite state_of_advance, (run_callbacks_frame now);
    [reflexivity | callback_frame].
Qed.

Lemma advance_timers d s :
  timers (state_of (advance d) s)
  = filter (fun t => negb (is_due (now s + d) t)) (timers s).
Proof.
  rewrite state_of_advance, (run_callbacks_frame timers);
    [reflexivity | callback_frame].
Qed.

Lemma advance_searchTimeout d s :
  searchTimeout (state_of (advance d) s) = searchTimeout s.
Proof.
  rewrite state_of_advance, (run_callbacks_frame searchTimeout);
    [reflexivity | callback_frame].
Qed.

Lemma advance_scrollTimeout d s :
  scrollTimeout (state_of (advance d) s) = scrollTimeout s.
Proof.
  rewrite state_of_advance, (run_callbacks_frame scrollTimeout);
    [reflexivity | callback_frame].
Qed.

Lemma advance_nextTimer d s : nextTimer (state_of (advance d) s) = nextTimer s.
Proof.
  rewrite state_of_advance, (run_callbacks_frame nextTimer);
    [reflexivity | callback_frame].
Qed.

Lemma advance_latestSearchId d s :
  latestSearchId (state_of (advance d) s)
  = latestSearchId s
    + List.length (filter is_search_timer (filter (is_due (now s + d)) (timers s))).
Proof.
  rewrite state_of_advance, run_callbacks_latestSearchId, count_sort_by_due.
  reflexivity.
Qed.

Lemma advance_output d s :
  output_of (advance d) s
  = map (fun t => InvokeSearch t (query s))
        (seq (S (latestSearchId s))
             (List.length (filter is_search_timer
                                  (filter (is_due (now s + d)) (timers s))))).
Proof.
  rewrite output_of_advance, run_callbacks_output, count_sort_by_due.
  reflexivity.
Qed.

Lemma advance_isMouseScrolling d s :
  isMouseScrolling (state_of (advance d) s)
  = if existsb is_scroll_timer (filter (is_due (now s + d)) (timers s))
    then false else isMouseScrolling s.
Proof.
  rewrite state_of_advance, run_callbacks_isMouseScrolling.
  assert (E : forall l, existsb is_scroll_timer (sort_by_due l)
                        = existsb is_scroll_timer l).
  { intro l. apply eq_true_iff_eq. rewrite !existsb_exists.
    split; intros [x [Hx Hp]]; exists x; split; auto;
      now apply In_sort_by_due. }
  rewrite E. reflexivity.
Qed.

(** ** Case analysis of a handler *)

Ltac destruct_cond c :=
  lazymatch c with
  | negb ?d => destruct_cond d
  | (?a || _)%bool => destruct_cond a
  | (?a && _)%bool => destruct_cond a
  | _ => destruct c eqn:?
  end.

Ltac split_cases :=
  repeat (match goal with
          | |- context [match ?x with Resolved _ => _ | Rejected _ => _ end] =>
              destruct x
          | |- context [if ?c then _ else _] => destruct_cond c
          | |- context [match ?x with Some _ => _ | None => _ end] =>
              destruct x eqn:?
          end; simpl).

Ltac by_cases := handler; simpl; split_cases.

Lemma watch_up_to_scroll_gate (i : Z) (s : State) :
  up_to_scroll_gate s (state_of (watch_selectedIndex i) s).
Proof. unfold up_to_scroll_gate. by_cases; auto. Qed.

Lemma watch_search_calls (i : Z) (s : State) :
  search_calls (output_of (watch_selectedIndex i) s) = [].
Proof. by_cases; reflexivity. Qed.

Lemma state_of_step (e : Event) (s : State) :
  up_to_scroll_gate (state_of (handle e) s) (state_of (step e) s).
Proof.
  unfold state_of at 2. rewrite exec_step. cbv zeta.
  destruct (_ =? _)%Z.
  - now left.
  - apply watch_up_to_scroll_gate.
Qed.

Lemma search_calls_app (o1 o2 : list Effect) :
  search_calls (o1 ++ o2) = search_calls o1 ++ search_calls o2.
Proof. apply flat_map_app. Qed.

Lemma step_search_calls (e : Event) (s : State) :
  search_calls (output_of (step e) s) = search_calls (output_of (handle e) s).
Proof.
  unfold output_of at 1. rewrite exec_step. cbv zeta.
  destruct (_ =? _)%Z; simpl.
  - reflexivity.
  - now rewrite search_calls_app, watch_search_calls, app_nil_r.
Qed.

(** A field other than [isKeyboardScroll] is what the handler left. *)
Ltac step_frame e s :=
  let E := fresh "E" in
  destruct (state_of_step e s) as [E|E]; rewrite E; try reflexivity.

Lemma step_results e s : results (state_of (step e) s) = results (state_of (handle e) s).
Proof. step_frame e s. Qed.

Lemma step_selectedIndex e s :
  selectedIndex (state_of (step e) s) = selectedIndex (state_of (handle e) s).
Proof. step_frame e s. Qed.

Lemma step_latestSearchId e s :
  latestSearchId (state_of (step e) s) = latestSearchId (state_of (handle e) s).
Proof. step_frame e s. Qed.

Lemma step_isMouseScrolling e s :
  isMouseScrolling (state_of (step e) s) = isMouseScrolling (state_of (handle e) s).
Proof. step_frame e s. Qed.

Lemma step_timers e s : timers (state_of (step e) s) = timers (state_of (handle e) s).
Proof. step_frame e s. Qed.

Lemma step_now e s : now (state_of (step e) s) = now (state_of (handle e) s).
Proof. step_frame e s. Qed.

Lemma step_query e s : query (state_of (step e) s) = query (state_of (handle e) s).
Proof. step_frame e s. Qed.

Lemma step_settings e s : settings (state_of (step e) s) = settings (state_of (handle e) s).
Proof. step_frame e s. Qed.

Lemma step_showSettings e s :
  showSettings (state_of (step e) s) = showSettings (state_of (handle e) s).
Proof. step_frame e s. Qed.

(** *** What a handler does to the result list and to the token *)

Lemma visible_app acc1 acc2 before :
  visible (acc1 ++ acc2) before = visible acc2 (visible acc1 before).
Proof.
  unfold visible. rewrite rev_app_distr.
  destruct (rev acc2); reflexivity.
Qed.

Lemma handle_results (e : Event) (s : State) :
  results (state_of (handle e) s) = visible (accepted_by s e) (results s).
Proof.
  destruct e; by_cases; try reflexivity.
Qed.

Lemma handle_latestSearchId_le (e : Event) (s : State) :
  latestSearchId s <= latestSearchId (state_of (handle e) s).
Proof. destruct e; by_cases; lia. Qed.

Lemma handle_tokens (e : Event) (s : State) :
  exists k,
    latestSearchId (state_of (handle e) s) = latestSearchId s + k
    /\ map fst (search_calls (output_of (handle e) s))
       = seq (S (latestSearchId s)) k.
Proof.
  destruct e; by_cases;
    first [ exists 0; split; [lia | reflexivity]
          | exists 1; split; [lia | reflexivity] ].
Qed.

(** *** Along a trace *)

Lemma exec_tstep (te : nat * Event) (s : State) :
  exec (tstep te) s =
  (state_of (step (snd te)) (state_of (advance (fst te)) s),
   output_of (advance (fst te)) s
   ++ output_of (step (snd te)) (state_of (advance (fst te)) s)).
Proof. unfold tstep. apply exec_bind. Qed.

Lemma state_of_tstep (te : nat * Event) (s : State) :
  state_of (tstep te) s = state_of (step (snd te)) (state_of (advance (fst te)) s).
Proof. unfold tstep. apply state_of_bind. Qed.

Lemma output_of_tstep (te : nat * Event) (s : State) :
  output_of (tstep te) s =
  output_of (advance (fst te)) s
  ++ output_of (step (snd te)) (state_of (advance (fst te)) s).
Proof. unfold tstep. apply output_of_bind. Qed.

Lemma tstep_results (te : nat * Event) (s : State) :
  results (state_of (tstep te) s)
  = visible (accepted_by (state_of (advance (fst te)) s) (snd te)) (results s).
Proof.
  rewrite state_of_tstep, step_results, handle_results, advance_results.
  reflexivity.
Qed.

Lemma run_results (tr : list (nat * Event)) (s : State) :
  results (state_of (run tr) s) = visible (accepted tr s) (results s).
Proof.
  revert s. induction tr as [|te tr IH]; intro s; simpl.
  - reflexivity.
  - rewrite state_of_bind, IH, visible_app, tstep_results. reflexivity.
Qed.

Lemma advance_tokens (d : nat) (s : State) :
  exists k,
    latestSearchId (state_of (advance d) s) = latestSearchId s + k
    /\ map fst (search_calls (output_of (advance d) s))
       = seq (S (latestSearchId s)) k.
Proof.
  eexists. split.
  - apply advance_latestSearchId.
  - rewrite advance_output.
    generalize (S (latestSearchId s)).
    induction (List.length _) as [|k IH]; intro a; simpl.
    + reflexivity.
    + now rewrite IH.
Qed.

Lemma tstep_tokens (te : nat * Event) (s : State) :
  exists k,
    latestSearchId (state_of (tstep te) s) = latestSearchId s + k
    /\ map fst (search_calls (output_of (tstep te) s))
       = seq (S (latestSearchId s)) k.
Proof.
  destruct (advance_tokens (fst te) s) as [k1 [L1 T1]].
  destruct (handle_tokens (snd te) (state_of (advance (fst te)) s))
    as [k2 [L2 T2]].
  exists (k1 + k2).
  rewrite state_of_tstep, output_of_tstep, step_latestSearchId, L2, L1.
  split; [lia|].
  rewrite search_calls_app, map_app, step_search_calls, T1, T2, L1, seq_app.
  do 2 f_equal.
Qed.

Lemma run_tokens (tr : list (nat * Event)) (s : State) :
  exists k,
    latestSearchId (state_of (run tr) s) = latestSearchId s + k
    /\ map fst (search_calls (output_of (run tr) s))
       = seq (S (latestSearchId s)) k.
Proof.
  revert s. induction tr as [|te tr IH]; intro s; simpl.
  - exists 0. split; [change (state_of skip s) with s; lia | reflexivity].
  - destruct (tstep_tokens te s) as [k1 [L1 T1]].
    destruct (IH (state_of (tstep te) s)) as [k2 [L2 T2]].
    exists (k1 + k2).
    rewrite state_of_bind, output_of_bind, L2, L1.
    split; [lia|].
    rewrite search_calls_app, map_app, T1, T2, L1, seq_app.
    do 2 f_equal.
Qed.

Lemma accepted_by_token (s : State) (e : Event) :
  Forall (fun p => fst p = latestSearchId s) (accepted_by s e).
Proof.
  destruct e; simpl; auto.
  destruct (Nat.eqb_spec currentSearchId (latestSearchId s)); auto.
Qed.

Lemma accepted_by_length (s : State) (e : Event) :
  List.length (accepted_by s e) <= 1.
Proof.
  destruct e; simpl; auto.
  destruct (_ =? _); simpl; auto.
Qed.

Lemma accepted_ge (tr : list (nat * Event)) (s : State) :
  Forall (fun p => latestSearchId s <= fst p) (accepted tr s).
Proof.
  revert s. induction tr as [|te tr IH]; intro s; simpl.
  - constructor.
  - apply Forall_app. split.
    + eapply Forall_impl; [|apply accepted_by_token].
      intros p ->. destruct (advance_tokens (fst te) s) as [k [L _]]. lia.
    + eapply Forall_impl; [|apply IH].
      intros p Hp. destruct (tstep_tokens te s) as [k [L _]]. simpl in Hp. lia.
Qed.

Lemma accepted_sorted (tr : list (nat * Event)) (s : State) :
  StronglySorted older_or_same (accepted tr s).
Proof.
  revert s. induction tr as [|te tr IH]; intro s; simpl.
  - constructor.
  - pose proof (accepted_by_token (state_of (advance (fst te)) s) (snd te)) as Ha.
    pose proof (accepted_by_length (state_of (advance (fst te)) s) (snd te)) as Hl.
    destruct (accepted_by _ _) as [|p [|q l]]; simpl.
    + apply IH.
    + constructor; [apply IH|].
      eapply Forall_impl; [|apply accepted_ge].
      intros q Hq. unfold older_or_same. inversion Ha; subst.
      rewrite state_of_tstep, step_latestSearchId in Hq.
      pose proof (handle_latestSearchId_le (snd te)
                    (state_of (advance (fst te)) s)). lia.
    + simpl in Hl. lia.
Qed.

Lemma sorted_last {A} (R : A -> A -> Prop) (l : list A) (x : A) :
  StronglySorted R (l ++ [x]) -> Forall (fun y => R y x) l.
Proof.
  induction l as [|y l IH]; simpl; intro H.
  - constructor.
  - inversion H as [|? ? Hs Hall]; subst. constructor.
    + rewrite Forall_forall in Hall. apply Hall, in_or_app. right. now left.
    + now apply IH.
Qed.

(** C1.  Latest wins.  Along any trace of events -- searches dispatched by
    the debounce timer, by Escape or by a settings save, and their answers
    arriving in any order, interleaved with any other event -- (1) the
    search calls carry the tokens [latestSearchId + 1], [latestSearchId + 2],
    ... in the order they are made; (2) an answer whose token is not the
    current [latestSearchId] when it arrives changes nothing and produces
    nothing; (3) the result list on screen is the answer of the last accepted
    arrival, whose token is the highest of all accepted ones (and the list is
    untouched when no answer was accepted). *)
Theorem latest_search_wins (tr : list (nat * Event)) (s : State) :
  (exists k, map fst (search_calls (output_of (run tr) s))
             = seq (S (latestSearchId s)) k)
  /\ (forall t r, t <> latestSearchId s ->
                  exec (step (SearchSettled t r)) s = (s, []))
  /\ match rev (accepted tr s) with
     | [] => results (state_of (run tr) s) = results s
     | (t, r) :: older =>
         results (state_of (run tr) s) = shown r
         /\ Forall (fun p => fst p <= t) older
     end.
Proof.
  split; [|split].
  - destruct (run_tokens tr s) as [k [_ H]]. now exists k.
  - intros t r. apply stale_step.
  - rewrite run_results. unfold visible.
    pose proof (accepted_sorted tr s) as Hs.
    rewrite <- (rev_involutive (accepted tr s)) in Hs.
    destruct (rev (accepted tr s)) as [|[t r] older]; simpl in *.
    + reflexivity.
    + split; [reflexivity|].
      apply sorted_last in Hs. apply Forall_rev in Hs.
      now rewrite rev_involutive in Hs.
Qed.

Lemma latest_search_wins_witness :
  results (state_of (run out_of_order) init) = [item "ab.txt"]
  /\ exec (step (SearchSettled 1 (Resolved [item "a.txt"])))
          (state_of (run out_of_order) init)
     = (state_of (run out_of_order) init, []).
Proof.
  split.
  - pose proof (latest_search_wins out_of_order init) as [_ [_ H]].
    vm_compute in H. destruct H as [H _]. exact H.
  - apply (latest_search_wins [] (state_of (run out_of_order) init)).
    vm_compute. discriminate.
Defined.

(** ** Accepted answers and the selection *)

Lemma accepted_failure (e : string) (s : State) :
  exec (step (SearchSettled (latestSearchId s) (Rejected e))) s
  = (set_isLoading false (set_results [] s), [ConsoleError "搜索失败:" e]).
Proof.
  assert (E : exec (handle (SearchSettled (latestSearchId s) (Rejected e))) s
              = (set_isLoading false (set_results [] s),
                 [ConsoleError "搜索失败:" e])).
  { handler. rewrite Nat.eqb_refl. simpl. rewrite Nat.eqb_refl. reflexivity. }
  rewrite exec_step_same_index; [exact E|].
  unfold state_of. now rewrite E.
Qed.

(** C2, as stated, fails: an accepted failure empties the list and leaves
    [selectedIndex] where it was (here on the second row). *)
Lemma selection_reset_not_on_failure :
  ~ (forall (s : State) (t : nat) (r : Settled (list SearchResult)),
        t = latestSearchId s ->
        selectedIndex (state_of (step (SearchSettled t r)) s) = 0%Z).
Proof.
  intro H.
  assert (E : 2 = latestSearchId awaiting_second_answer) by reflexivity.
  specialize (H awaiting_second_answer 2 (Rejected "timeout") E).
  vm_compute in H. discriminate H.
Qed.

(** C2, amended.  An accepted successful answer replaces the result list
    and sets [selectedIndex] to 0 whatever it was; an accepted failure
    replaces the list by the empty one and leaves [selectedIndex] at its
    value. *)
Theorem selection_reset (t : nat) (s : State) :
  t = latestSearchId s ->
  (forall res,
      let s' := state_of (step (SearchSettled t (Resolved res))) s in
      results s' = res /\ selectedIndex s' = 0%Z)
  /\ (forall e,
      let s' := state_of (step (SearchSettled t (Rejected e))) s in
      results s' = [] /\ selectedIndex s' = selectedIndex s).
Proof.
  intros ->. split.
  - intro res. cbv zeta.
    rewrite step_results, step_selectedIndex.
    unfold state_of. simpl handle. handler.
    rewrite Nat.eqb_refl. simpl. rewrite Nat.eqb_refl. simpl. auto.
  - intro e. cbv zeta. unfold state_of. rewrite accepted_failure. simpl. auto.
Qed.

Lemma selection_reset_witness :
  selectedIndex
    (state_of (step (SearchSettled 2 (Resolved [item "ab.txt"])))
              awaiting_second_answer) = 0%Z
  /\ selectedIndex
       (state_of (step (SearchSettled 2 (Rejected "timeout")))
                 awaiting_second_answer) = 1%Z.
Proof.
  assert (E : 2 = latestSearchId awaiting_second_answer) by reflexivity.
  destruct (selection_reset 2 awaiting_second_answer E) as [Hok Hfail].
  split.
  - apply Hok.
  - apply Hfail.
Defined.

(** C9.  A failed search whose token is still current is logged, empties the
    result list and clears the loading flag, and does nothing else; a failed
    search whose token is stale changes nothing and logs nothing. *)
Theorem search_failure (t : nat) (e : string) (s : State) :
  (t = latestSearchId s ->
   let s' := state_of (step (SearchSettled t (Rejected e))) s in
   output_of (step (SearchSettled t (Rejected e))) s
   = [ConsoleError "搜索失败:" e]
   /\ results s' = []
   /\ isLoading s' = false
   /\ s' = set_isLoading false (set_results [] s))
  /\ (t <> latestSearchId s ->
      exec (step (SearchSettled t (Rejected e))) s = (s, [])).
Proof.
  split.
  - intros ->. cbv zeta. unfold state_of, output_of.
    rewrite accepted_failure. simpl. auto.
  - apply stale_step.
Qed.

Lemma search_failure_witness :
  results (state_of (step (SearchSettled 2 (Rejected "timeout")))
                    awaiting_second_answer) = []
  /\ exec (step (SearchSettled 1 (Rejected "timeout"))) awaiting_second_answer
     = (awaiting_second_answer, []).
Proof.
  split.
  - apply (search_failure 2 "timeout" awaiting_second_answer).
    reflexivity.
  - apply (search_failure 1 "timeout" awaiting_second_answer).
    vm_compute. discriminate.
Defined.

(** ** Escape *)

Lemma length_zero_empty (q : string) : String.length q = 0 <-> q = "".
Proof. destruct q; simpl; split; congruence. Qed.

(** C6.  Escape with a non-empty query empties the query and issues a search
    for the empty string (the result list stays as it is until an answer is
    accepted); Escape with an empty query asks the window to hide and leaves
    the whole state, query and result list included, untouched. *)
Theorem escape_two_stage (s : State) :
  (query s <> "" ->
   let s' := state_of (step (KeyDown "Escape")) s in
   query s' = ""
   /\ output_of (step (KeyDown "Escape")) s
      = [InvokeSearch (S (latestSearchId s)) ""]
   /\ latestSearchId s' = S (latestSearchId s)
   /\ results s' = results s)
  /\ (query s = "" -> exec (step (KeyDown "Escape")) s = (s, [WindowHide])).
Proof.
  split; intro Hq.
  - assert (E : exec (handle (KeyDown "Escape")) s
                = (set_isLoading true
                     (set_latestSearchId (S (latestSearchId s)) (set_query "" s)),
                   [InvokeSearch (S (latestSearchId s)) ""])).
    { handler. simpl.
      destruct (String.length (query s)) eqn:L; [|reflexivity].
      now apply length_zero_empty in L. }
    assert (Es : exec (step (KeyDown "Escape")) s
                 = exec (handle (KeyDown "Escape")) s).
    { apply exec_step_same_index. unfold state_of. now rewrite E. }
    cbv zeta. unfold state_of, output_of. rewrite Es, E. simpl. auto.
  - assert (E : exec (handle (KeyDown "Escape")) s = (s, [WindowHide])).
    { handler. simpl. rewrite Hq. reflexivity. }
    rewrite exec_step_same_index; [exact E|].
    unfold state_of. now rewrite E.
Qed.

Lemma escape_two_stage_witness :
  query (state_of (step (KeyDown "Escape")) two_rows) = ""
  /\ exec (step (KeyDown "Escape")) init = (init, [WindowHide]).
Proof.
  split.
  - apply (escape_two_stage two_rows). vm_compute. discriminate.
  - apply (escape_two_stage init). reflexivity.
Defined.

(** ** The settings session *)

Lemma load_resolved (saved : SavedSettings) (s : State) :
  exec (step (GetSettingsSettled (Resolved saved))) s
  = (set_settings (set_theme_bg_image FIXED_BG_PATH (spread (settings s) saved))
       (set_settings (spread (settings s) saved) s), []).
Proof. now rewrite exec_step_same_index. Qed.

Lemma save_click (s : State) :
  exec (step ClickSave) s
  = (let a := set_max_results (Number (max_results (settings s))) (settings s) in
     set_settings (set_theme_bg_image FIXED_BG_PATH a) (set_settings a s),
     [InvokeSaveSettings
        (set_theme_bg_image FIXED_BG_PATH
           (set_max_results (Number (max_results (settings s))) (settings s)))]).
Proof. now rewrite exec_step_same_index. Qed.

Lemma toggle_closed (s : State) :
  showSettings s = false ->
  exec (step ClickSettings) s = (set_showSettings true s, [InvokeGetSettings]).
Proof.
  intro H. rewrite exec_step_same_index; handler; simpl; now rewrite H.
Qed.

Lemma toggle_open (s : State) :
  showSettings s = true ->
  exec (step ClickSettings) s = (set_showSettings false s, [FocusInput]).
Proof.
  intro H. rewrite exec_step_same_index; handler; simpl; now rewrite H.
Qed.

(** C7.  Opening the panel asks the store for the settings, and whatever
    the store answers for the background image (or for anything else), the
    draft's background image is the fixed path once the answer is merged;
    and the record that a save hands to [save_settings] carries the fixed
    path too, whatever the draft held. *)
Theorem settings_pinning (s : State) :
  showSettings s = false ->
  output_of (step ClickSettings) s = [InvokeGetSettings]
  /\ (forall saved s0,
        theme_bg_image
          (settings (state_of (step (GetSettingsSettled (Resolved saved))) s0))
        = FIXED_BG_PATH)
  /\ (forall s0, exists newSettings,
        output_of (step ClickSave) s0 = [InvokeSaveSettings newSettings]
        /\ theme_bg_image newSettings = FIXED_BG_PATH).
Proof.
  intro H. split; [|split].
  - unfold output_of. now rewrite toggle_closed.
  - intros saved s0. unfold state_of. now rewrite load_resolved.
  - intro s0. eexists. unfold output_of. rewrite save_click. simpl.
    split; reflexivity.
Qed.

Lemma settings_pinning_witness :
  saved_theme_bg_image persisted <> Some FIXED_BG_PATH
  /\ theme_bg_image (settings panel_open) = FIXED_BG_PATH.
Proof.
  split.
  - vm_compute. discriminate.
  - assert (H : showSettings init = false) by reflexivity.
    destruct (settings_pinning init H) as [_ [Hload _]].
    exact (Hload persisted (state_of (tstep (0, ClickSettings)) init)).
Defined.

(** C8, as stated, fails: after open, one edit and cancel, the settings
    are the edited ones, not those before the edit. *)
Lemma cancel_keeps_the_edits :
  let edited := state_of (run [ (5, EditOpacity (9 # 10));
                                (5, ClickSettings) ]) panel_open in
  showSettings panel_open = true
  /\ showSettings edited = false
  /\ settings edited <> settings panel_open.
Proof.
  vm_compute. repeat split; discriminate.
Qed.

(** C8, amended.  Cancel closes the panel and gives the focus back, and
    leaves the in-memory settings exactly as the edits left them; what drops
    the edits is the next load: when the store answers with every field, the
    draft after the load is that answer with the background image pinned,
    whatever the draft held before. *)
Theorem cancel_then_reload (s : State) :
  showSettings s = true ->
  exec (step ClickSettings) s = (set_showSettings false s, [FocusInput])
  /\ settings (state_of (step ClickSettings) s) = settings s
  /\ (forall stored s0,
        settings (state_of (step (GetSettingsSettled (Resolved (snapshot stored))))
                           s0)
        = set_theme_bg_image FIXED_BG_PATH stored).
Proof.
  intro H. split; [|split].
  - now apply toggle_open.
  - unfold state_of. now rewrite toggle_open.
  - intros stored s0. unfold state_of. rewrite load_resolved.
    destruct stored; reflexivity.
Qed.

Lemma cancel_then_reload_witness :
  settings (state_of (step ClickSettings)
                     (state_of (step (EditOpacity (9 # 10))) panel_open))
  = set_theme_bg_opacity (9 # 10) (settings panel_open).
Proof.
  assert (H : showSettings (state_of (step (EditOpacity (9 # 10))) panel_open)
              = true) by reflexivity.
  destruct (cancel_then_reload _ H) as [_ [Hkeep _]].
  rewrite Hkeep. reflexivity.
Defined.

(** ** Keyboard navigation *)

Lemma nonempty_pos {A} (l : list A) :
  l <> [] -> (0 < Z.of_nat (List.length l))%Z.
Proof. destruct l; [congruence | simpl; lia]. Qed.

Lemma nonempty_length {A} (l : list A) :
  l <> [] -> (List.length l =? 0) = false.
Proof. destruct l; [congruence | reflexivity]. Qed.

Lemma arrow_down (s : State) :
  results s <> [] ->
  exec (handle (KeyDown "ArrowDown")) s
  = (let s1 := set_isKeyboardSelection true (set_isKeyboardScroll true s) in
     set_selectedIndex
       (js_rem (selectedIndex s + 1) (Z.of_nat (List.length (results s)))) s1,
     [PreventDefault]).
Proof.
  intro H. handler. simpl. now rewrite (nonempty_length _ H).
Qed.

Lemma arrow_up (s : State) :
  results s <> [] ->
  exec (handle (KeyDown "ArrowUp")) s
  = (let s1 := set_isKeyboardSelection true (set_isKeyboardScroll true s) in
     set_selectedIndex
       (js_rem (selectedIndex s - 1 + Z.of_nat (List.length (results s)))
               (Z.of_nat (List.length (results s)))) s1,
     [PreventDefault]).
Proof.
  intro H. handler. simpl. now rewrite (nonempty_length _ H).
Qed.

Lemma arrow_on_empty (key : string) (s : State) :
  key = "ArrowDown" \/ key = "ArrowUp" ->
  results s = [] ->
  exec (step (KeyDown key)) s = (s, [PreventDefault]).
Proof.
  intros Hk H.
  assert (E : exec (handle (KeyDown key)) s = (s, [PreventDefault])).
  { destruct Hk; subst key; handler; simpl; now rewrite H. }
  rewrite exec_step_same_index; [exact E|].
  unfold state_of. now rewrite E.
Qed.

Lemma step_arrow_down (s : State) :
  let n := Z.of_nat (List.length (results s)) in
  (0 <= selectedIndex s < n)%Z ->
  let s' := state_of (step (KeyDown "ArrowDown")) s in
  results s' = results s
  /\ selectedIndex s' = ((selectedIndex s + 1) mod n)%Z.
Proof.
  intros n Hi s'. subst s'.
  assert (Hne : results s <> []).
  { intro E. subst n. rewrite E in Hi. simpl in Hi. lia. }
  rewrite step_results, step_selectedIndex.
  unfold state_of. rewrite (arrow_down _ Hne). simpl. split; [reflexivity|].
  unfold js_rem. apply Z.rem_mod_nonneg; lia.
Qed.

Lemma step_arrow_up (s : State) :
  let n := Z.of_nat (List.length (results s)) in
  (0 <= selectedIndex s < n)%Z ->
  let s' := state_of (step (KeyDown "ArrowUp")) s in
  results s' = results s
  /\ selectedIndex s' = ((selectedIndex s - 1 + n) mod n)%Z.
Proof.
  intros n Hi s'. subst s'.
  assert (Hne : results s <> []).
  { intro E. subst n. rewrite E in Hi. simpl in Hi. lia. }
  rewrite step_results, step_selectedIndex.
  unfold state_of. rewrite (arrow_up _ Hne). simpl. split; [reflexivity|].
  unfold js_rem. apply Z.rem_mod_nonneg; lia.
Qed.

Lemma presses_down (k : nat) (s : State) :
  let n := Z.of_nat (List.length (results s)) in
  (0 <= selectedIndex s < n)%Z ->
  results (presses "ArrowDown" k s) = results s
  /\ selectedIndex (presses "ArrowDown" k s)
     = ((selectedIndex s + Z.of_nat k) mod n)%Z.
Proof.
  intros n Hi. induction k as [|k [IHr IHi]].
  - simpl. split; [reflexivity|].
    rewrite Z.add_0_r, Z.mod_small; lia.
  - unfold presses in *. simpl Nat.iter.
    set (sk := Nat.iter k (state_of (step (KeyDown "ArrowDown"))) s) in *.
    destruct (step_arrow_down sk) as [Hr Hs].
    + rewrite IHr, IHi. fold n. apply Z.mod_pos_bound. lia.
    + rewrite Hr, Hs, IHr, IHi. fold n. split; [reflexivity|].
      rewrite Zplus_mod_idemp_l. f_equal. lia.
Qed.

Lemma presses_up (k : nat) (s : State) :
  let n := Z.of_nat (List.length (results s)) in
  (0 <= selectedIndex s < n)%Z ->
  results (presses "ArrowUp" k s) = results s
  /\ selectedIndex (presses "ArrowUp" k s)
     = ((selectedIndex s - Z.of_nat k) mod n)%Z.
Proof.
  intros n Hi. induction k as [|k [IHr IHi]].
  - simpl. split; [reflexivity|].
    rewrite Z.sub_0_r, Z.mod_small; lia.
  - unfold presses in *. simpl Nat.iter.
    set (sk := Nat.iter k (state_of (step (KeyDown "ArrowUp"))) s) in *.
    destruct (step_arrow_up sk) as [Hr Hs].
    + rewrite IHr, IHi. fold n. apply Z.mod_pos_bound. lia.
    + rewrite Hr, Hs, IHr, IHi. fold n. split; [reflexivity|].
      replace ((selectedIndex s - Z.of_nat k) mod n - 1 + n)%Z
        with ((selectedIndex s - Z.of_nat k) mod n + (n - 1))%Z by lia.
      rewrite Zplus_mod_idemp_l.
      replace (selectedIndex s - Z.of_nat k + (n - 1))%Z
        with (selectedIndex s - Z.of_nat (S k) + 1 * n)%Z by lia.
      apply Z_mod_plus_full.
Qed.

(** C4.  With no row, Down and Up leave the state as it is.  With [n >= 1]
    rows and the selection on one of them, Down moves it from [i] to
    [(i + 1) mod n] and Up to [(i - 1 + n) mod n]; so [n] presses of Down, and
    [n] presses of Up, bring it back where it started. *)
Theorem cyclic_navigation (s : State) :
  let n := Z.of_nat (List.length (results s)) in
  let i := selectedIndex s in
  (n = 0%Z ->
     state_of (step (KeyDown "ArrowDown")) s = s
     /\ state_of (step (KeyDown "ArrowUp")) s = s)
  /\ ((0 <= i < n)%Z ->
      selectedIndex (state_of (step (KeyDown "ArrowDown")) s) = ((i + 1) mod n)%Z
      /\ selectedIndex (state_of (step (KeyDown "ArrowUp")) s)
         = ((i - 1 + n) mod n)%Z
      /\ selectedIndex (presses "ArrowDown" (List.length (results s)) s) = i
      /\ selectedIndex (presses "ArrowUp" (List.length (results s)) s) = i).
Proof.
  intros n i. split.
  - intro Hn. assert (E : results s = []).
    { subst n. destruct (results s); [reflexivity | discriminate]. }
    unfold state_of. rewrite !arrow_on_empty; auto.
  - intro Hi. repeat split.
    + apply step_arrow_down, Hi.
    + apply step_arrow_up, Hi.
    + destruct (presses_down (List.length (results s)) s Hi) as [_ ->].
      fold n i. replace (i + n)%Z with (i + 1 * n)%Z by lia.
      rewrite Z_mod_plus_full. apply Z.mod_small, Hi.
    + destruct (presses_up (List.length (results s)) s Hi) as [_ ->].
      fold n i. replace (i - n)%Z with (i + (-1) * n)%Z by lia.
      rewrite Z_mod_plus_full. apply Z.mod_small, Hi.
Qed.

Lemma cyclic_navigation_witness :
  state_of (step (KeyDown "ArrowDown")) init = init
  /\ selectedIndex (state_of (step (KeyDown "ArrowUp")) two_rows) = 1%Z
  /\ selectedIndex (presses "ArrowDown" 2 two_rows) = 0%Z.
Proof.
  split; [|split].
  - apply (cyclic_navigation init). reflexivity.
  - destruct (cyclic_navigation two_rows) as [_ H].
    destruct H as [_ [Hup _]]; [vm_compute; split; congruence|].
    exact Hup.
  - destruct (cyclic_navigation two_rows) as [_ H].
    destruct H as [_ [_ [Hdown _]]]; [vm_compute; split; congruence|].
    exact Hdown.
Defined.

(** ** The keyboard gates and the scroll watcher *)

Lemma moved (mx my : Z) :
  (mx <> 0 \/ my <> 0)%Z -> (mx =? 0)%Z && (my =? 0)%Z = false.
Proof.
  intros [H|H]; apply Z.eqb_neq in H; rewrite H; auto using andb_false_r.
Qed.

Lemma hover_selects (row mx my : Z) (s : State) :
  isMouseScrolling s = false ->
  (mx <> 0 \/ my <> 0)%Z ->
  exec (handle (MouseMove row mx my)) s
  = (set_isKeyboardSelection false (set_selectedIndex row s), []).
Proof.
  intros Hs Hm. handler. simpl. now rewrite Hs, (moved _ _ Hm).
Qed.

Lemma hover_scrolls (row mx my : Z) (s : State) :
  isMouseScrolling s = false ->
  (mx <> 0 \/ my <> 0)%Z ->
  isKeyboardScroll s = true ->
  showSettings s = false ->
  (0 <= row < Z.of_nat (List.length (results s)))%Z ->
  row <> selectedIndex s ->
  exec (step (MouseMove row mx my)) s
  = (set_isKeyboardScroll false
       (set_isKeyboardSelection false (set_selectedIndex row s)),
     [ScrollIntoView row]).
Proof.
  intros Hs Hm Hk Hv Hr Hne.
  rewrite exec_step. cbv zeta. unfold state_of, output_of.
  rewrite (hover_selects _ _ _ _ Hs Hm). simpl.
  apply Z.eqb_neq in Hne. rewrite Hne.
  handler. simpl. unfold resultListRef, children_length. simpl.
  rewrite Hk, Hv. simpl.
  assert (G : (row >=? Z.of_nat (List.length (results s))
                      + (if empty_state
                              (set_isKeyboardSelection false
                                 (set_selectedIndex row s))
                         then 1 else 0))%Z = false).
  { rewrite Z.geb_leb. apply Z.leb_gt. destruct (empty_state _); lia. }
  rewrite G.
  assert (P : (0 <=? row)%Z = true) by (apply Z.leb_le; lia).
  rewrite P. reflexivity.
Qed.

Lemma key_sets_gates (key : string) (s : State) :
  key <> "Escape" ->
  results s <> [] ->
  isKeyboardScroll (state_of (handle (KeyDown key)) s) = true
  /\ isKeyboardSelection (state_of (handle (KeyDown key)) s) = true.
Proof.
  intros Hk Hr. apply String.eqb_neq in Hk.
  pose proof (nonempty_length _ Hr) as Hn.
  split; by_cases; congruence.
Qed.

Lemma other_key (key : string) (s : State) :
  key <> "Escape" -> key <> "ArrowDown" -> key <> "ArrowUp" ->
  results s <> [] ->
  state_of (step (KeyDown key)) s
  = set_isKeyboardSelection true (set_isKeyboardScroll true s).
Proof.
  intros He Hd Hu Hr.
  apply String.eqb_neq in He, Hd, Hu.
  assert (E : state_of (handle (KeyDown key)) s
              = set_isKeyboardSelection true (set_isKeyboardScroll true s)).
  { pose proof (nonempty_length _ Hr) as Hn.
    by_cases; congruence. }
  unfold state_of at 1. rewrite exec_step_same_index.
  - exact E.
  - now rewrite E.
Qed.

Lemma answer_scrolls (res : list SearchResult) (s : State) :
  isKeyboardScroll s = true ->
  showSettings s = false ->
  res <> [] ->
  selectedIndex s <> 0%Z ->
  output_of (step (SearchSettled (latestSearchId s) (Resolved res))) s
  = [ScrollIntoView 0].
Proof.
  intros Hk Hv Hres Hi.
  assert (E : exec (handle (SearchSettled (latestSearchId s) (Resolved res))) s
              = (set_isLoading false (set_selectedIndex 0%Z (set_results res s)),
                 [])).
  { handler. rewrite Nat.eqb_refl. simpl. rewrite Nat.eqb_refl. reflexivity. }
  unfold output_of. rewrite exec_step. cbv zeta. unfold state_of, output_of.
  rewrite E. cbn [fst snd].
  change (selectedIndex (set_isLoading false
                           (set_selectedIndex 0 (set_results res s))))
    with 0%Z.
  assert (Hne : (0 =? selectedIndex s)%Z = false) by (apply Z.eqb_neq; congruence).
  rewrite Hne.
  handler. simpl. unfold resultListRef, children_length. simpl.
  rewrite Hk, Hv. simpl.
  pose proof (nonempty_pos _ Hres) as Hpos.
  assert (G : (0 >=? Z.of_nat (List.length res)
                     + (if empty_state
                             (set_isLoading false
                                (set_selectedIndex 0 (set_results res s)))
                        then 1 else 0))%Z = false).
  { rewrite Z.geb_leb. apply Z.leb_gt. destruct (empty_state _); lia. }
  rewrite G. reflexivity.
Qed.

(** C10.  Any key but Escape pressed while there are rows -- a character
    key or Enter as well as an arrow -- makes the handler set both keyboard
    gates.  After a key that does not move the selection the scroll gate is
    still set when the task ends, so the next change of [selectedIndex] runs
    the watcher's [scrollIntoView], be it the change made by a mouse hover
    over another row or the reset made by an accepted answer. *)
Theorem keyboard_gates (key : string) (s : State) :
  key <> "Escape" ->
  results s <> [] ->
  (isKeyboardScroll (state_of (handle (KeyDown key)) s) = true
   /\ isKeyboardSelection (state_of (handle (KeyDown key)) s) = true)
  /\ (key <> "ArrowDown" -> key <> "ArrowUp" ->
      let s' := state_of (step (KeyDown key)) s in
      isKeyboardScroll s' = true
      /\ isKeyboardSelection s' = true
      /\ (forall row mx my,
           isMouseScrolling s = false ->
           showSettings s = false ->
           (mx <> 0 \/ my <> 0)%Z ->
           (0 <= row < Z.of_nat (List.length (results s)))%Z ->
           row <> selectedIndex s ->
           output_of (step (MouseMove row mx my)) s' = [ScrollIntoView row]
           /\ selectedIndex (state_of (step (MouseMove row mx my)) s') = row)
      /\ (forall res,
           showSettings s = false ->
           res <> [] ->
           selectedIndex s <> 0%Z ->
           output_of (step (SearchSettled (latestSearchId s') (Resolved res))) s'
           = [ScrollIntoView 0])).
Proof.
  intros He Hr. split.
  - now apply key_sets_gates.
  - intros Hd Hu. cbv zeta. rewrite (other_key _ _ He Hd Hu Hr).
    split; [reflexivity | split; [reflexivity | split]].
    + intros row mx my Hs Hv Hm Hrow Hne.
      unfold output_of, state_of. rewrite hover_scrolls; auto.
    + intros res Hv Hres Hi. now apply answer_scrolls.
Qed.

Lemma keyboard_gates_witness :
  isKeyboardScroll (state_of (step (KeyDown "x")) two_rows) = true
  /\ output_of (step (MouseMove 1 3 0))
               (state_of (step (KeyDown "Enter")) two_rows)
     = [ScrollIntoView 1].
Proof.
  assert (Hx : "x" <> "Escape") by discriminate.
  assert (He : "Enter" <> "Escape") by discriminate.
  assert (Hr : results two_rows <> []) by (vm_compute; discriminate).
  split.
  - destruct (keyboard_gates "x" two_rows Hx Hr) as [_ H].
    apply H; discriminate.
  - destruct (keyboard_gates "Enter" two_rows He Hr) as [_ H].
    destruct H as [_ [_ [H _]]]; [discriminate | discriminate |].
    apply (H 1%Z 3%Z 0%Z); try reflexivity.
    + left. discriminate.
    + vm_compute. split; congruence.
    + vm_compute. discriminate.
Defined.

(** ** Timers *)

(** *** What a handler does to the clock and the queue *)

Lemma handle_now (e : Event) (s : State) : now (state_of (handle e) s) = now s.
Proof. destruct e; by_cases; reflexivity. Qed.

Lemma handle_timers (e : Event) (s : State) :
  timers (state_of (handle e) s)
  = match e with
    | Input _ => rearmed (searchTimeout s) CbSearch 100 s
    | ListScroll => rearmed (scrollTimeout s) CbScrollEnd 150 s
    | _ => timers s
    end.
Proof. destruct e; by_cases; reflexivity. Qed.

Lemma handle_searchTimeout (e : Event) (s : State) :
  searchTimeout (state_of (handle e) s)
  = match e with
    | Input _ => Some (nextTimer s)
    | _ => searchTimeout s
    end.
Proof. destruct e; by_cases; reflexivity. Qed.

Lemma handle_scrollTimeout (e : Event) (s : State) :
  scrollTimeout (state_of (handle e) s)
  = match e with
    | ListScroll => Some (nextTimer s)
    | _ => scrollTimeout s
    end.
Proof. destruct e; by_cases; reflexivity. Qed.

Lemma handle_nextTimer (e : Event) (s : State) :
  nextTimer (state_of (handle e) s)
  = match e with
    | Input _ | ListScroll => S (nextTimer s)
    | _ => nextTimer s
    end.
Proof. destruct e; by_cases; reflexivity. Qed.

Lemma handle_isMouseScrolling (e : Event) (s : State) :
  isMouseScrolling (state_of (handle e) s)
  = if is_scroll_event e then true else isMouseScrolling s.
Proof. destruct e; by_cases; congruence. Qed.

Lemma handle_input (v : string) (s : State) :
  query (state_of (handle (Input v)) s) = v
  /\ latestSearchId (state_of (handle (Input v)) s) = latestSearchId s
  /\ output_of (handle (Input v)) s = [].
Proof. by_cases; auto. Qed.

Lemma step_searchTimeout e s :
  searchTimeout (state_of (step e) s) = searchTimeout (state_of (handle e) s).
Proof. step_frame e s. Qed.

Lemma step_scrollTimeout e s :
  scrollTimeout (state_of (step e) s) = scrollTimeout (state_of (handle e) s).
Proof. step_frame e s. Qed.

Lemma step_nextTimer e s :
  nextTimer (state_of (step e) s) = nextTimer (state_of (handle e) s).
Proof. step_frame e s. Qed.

(** *** The handles name the queued timers *)

Lemma In_cleared (handle : option nat) (l : list Timer) (t : Timer) :
  In t (cleared handle l) <-> In t l /\ handle <> Some (tid t).
Proof.
  destruct handle as [h|]; simpl.
  - rewrite filter_In, negb_true_iff, Nat.eqb_neq.
    intuition congruence.
  - intuition congruence.
Qed.

Lemma In_rearmed (handle : option nat) (c : Callback) (delay : nat)
    (s : State) (t : Timer) :
  In t (rearmed handle c delay s)
  <-> (In t (timers s) /\ handle <> Some (tid t))
      \/ t = {| tid := nextTimer s; due := now s + delay; cb := c |}.
Proof.
  unfold rearmed. rewrite in_app_iff, In_cleared. simpl.
  intuition congruence.
Qed.

Lemma timers_ok_init : timers_ok init.
Proof. constructor; simpl; intros; try contradiction; discriminate. Qed.

Lemma timers_ok_handle (e : Event) (s : State) :
  timers_ok s -> timers_ok (state_of (handle e) s).
Proof.
  intros [Hs Hc Hso Hco Hd].
  constructor;
    rewrite ?handle_timers, ?handle_searchTimeout, ?handle_scrollTimeout,
      ?handle_nextTimer.
  - intros t Ht Hcb. destruct e; auto.
    + apply In_rearmed in Ht. destruct Ht as [[Ht Hne]|Ht].
      * exfalso. apply Hne. now apply Hs.
      * subst t. reflexivity.
    + apply In_rearmed in Ht. destruct Ht as [[Ht Hne]|Ht].
      * now apply Hs.
      * subst t. discriminate.
  - intros t Ht Hcb. destruct e; auto.
    + apply In_rearmed in Ht. destruct Ht as [[Ht Hne]|Ht].
      * now apply Hc.
      * subst t. discriminate.
    + apply In_rearmed in Ht. destruct Ht as [[Ht Hne]|Ht].
      * exfalso. apply Hne. now apply Hc.
      * subst t. reflexivity.
  - intros h Hh. destruct e; auto; try (specialize (Hso _ Hh); lia).
    injection Hh as <-. lia.
  - intros h Hh. destruct e; auto; try (specialize (Hco _ Hh); lia).
    injection Hh as <-. lia.
  - intros h Hh. destruct e; auto.
    + injection Hh as <-. intro Hh. apply Hco in Hh. lia.
    + intro Hh'. injection Hh' as <-. apply Hso in Hh. lia.
Qed.

Lemma timers_ok_step (e : Event) (s : State) :
  timers_ok s -> timers_ok (state_of (step e) s).
Proof.
  intro H. apply (timers_ok_handle e) in H. destruct H as [Hs Hc Hso Hco Hd].
  constructor;
    rewrite ?step_timers, ?step_searchTimeout, ?step_scrollTimeout,
      ?step_nextTimer; assumption.
Qed.

Lemma timers_ok_advance (d : nat) (s : State) :
  timers_ok s -> timers_ok (state_of (advance d) s).
Proof.
  intros [Hs Hc Hso Hco Hd].
  constructor;
    rewrite ?advance_timers, ?advance_searchTimeout, ?advance_scrollTimeout,
      ?advance_nextTimer; auto.
  - intros t Ht. apply filter_In in Ht. now apply Hs.
  - intros t Ht. apply filter_In in Ht. now apply Hc.
Qed.

Lemma timers_ok_tstep (te : nat * Event) (s : State) :
  timers_ok s -> timers_ok (state_of (tstep te) s).
Proof.
  intro H. rewrite state_of_tstep. now apply timers_ok_step, timers_ok_advance.
Qed.

Lemma reachable_timers_ok (s : State) : reachable s -> timers_ok s.
Proof.
  induction 1 as [|s te _ IH].
  - apply timers_ok_init.
  - now apply timers_ok_tstep.
Qed.

(** ** The debounced dispatcher *)

Lemma filter_swap {A} (p q : A -> bool) (l : list A) :
  filter p (filter q l) = filter q (filter p l).
Proof.
  induction l as [|x l IH]; simpl.
  - reflexivity.
  - destruct (q x) eqn:Q, (p x) eqn:P; simpl; rewrite ?P, ?Q, IH; reflexivity.
Qed.

Lemma filter_none {A} (p : A -> bool) (l : list A) :
  (forall x, In x l -> p x = false) -> filter p l = [].
Proof.
  induction l as [|x l IH]; simpl; intro H.
  - reflexivity.
  - rewrite (H x) by auto. apply IH. auto.
Qed.

Lemma last_cons {A} (a d : A) (l : list A) : last (a :: l) d = last l a.
Proof.
  revert a d. induction l as [|b l IH]; intros a d.
  - reflexivity.
  - change (last (a :: b :: l) d) with (last (b :: l) d).
    now rewrite !IH.
Qed.

Lemma search_timer_cb (t : Timer) : is_search_timer t = true <-> cb t = CbSearch.
Proof. unfold is_search_timer. destruct (cb t); split; congruence. Qed.

Lemma scroll_timer_cb (t : Timer) : is_scroll_timer t = true <-> cb t = CbScrollEnd.
Proof. unfold is_scroll_timer. destruct (cb t); split; congruence. Qed.

(** An input change leaves exactly one debounce timer, the one it set. *)
Lemma input_rearms (v : string) (s : State) :
  timers_ok s ->
  search_timers (state_of (step (Input v)) s)
  = [{| tid := nextTimer s; due := now s + 100; cb := CbSearch |}].
Proof.
  intro Hok. unfold search_timers.
  rewrite step_timers, handle_timers. unfold rearmed.
  rewrite filter_app. simpl. rewrite filter_none; [reflexivity|].
  intros t Ht. apply In_cleared in Ht. destruct Ht as [Ht Hne].
  destruct (is_search_timer t) eqn:E; [|reflexivity].
  exfalso. apply Hne. apply (ok_search _ Hok); [assumption|].
  now apply search_timer_cb.
Qed.

Lemma debouncing_input (v : string) (s : State) :
  timers_ok s ->
  debouncing v (latestSearchId s) (state_of (step (Input v)) s)
  /\ search_calls (output_of (step (Input v)) s) = [].
Proof.
  intro Hok. destruct (handle_input v s) as [Hq [Hl Ho]].
  split; [split; [|split; [|split]]|].
  - now apply timers_ok_step.
  - now rewrite step_query.
  - now rewrite step_latestSearchId.
  - eexists. split; [now apply input_rearms|].
    simpl. now rewrite step_now, handle_now.
  - now rewrite step_search_calls, Ho.
Qed.

Lemma due_search_timers (target : nat) (s : State) :
  filter is_search_timer (filter (is_due target) (timers s))
  = filter (is_due target) (search_timers s).
Proof. apply filter_swap. Qed.

Lemma quiet_advance (v : string) (L g : nat) (s : State) :
  debouncing v L s ->
  g < 100 ->
  timers_ok (state_of (advance g) s)
  /\ latestSearchId (state_of (advance g) s) = L
  /\ search_calls (output_of (advance g) s) = [].
Proof.
  intros [Hok [Hq [Hl [t [Ht Hdue]]]]] Hg.
  assert (E : filter is_search_timer (filter (is_due (now s + g)) (timers s)) = []).
  { rewrite due_search_timers, Ht. simpl. unfold is_due.
    destruct (Nat.leb_spec (due t) (now s + g)); [lia | reflexivity]. }
  split; [|split].
  - now apply timers_ok_advance.
  - rewrite advance_latestSearchId, E. simpl. lia.
  - rewrite advance_output, E. reflexivity.
Qed.

Lemma burst_is_silent (burst : list (nat * string)) (v : string) (L : nat)
    (s : State) :
  debouncing v L s ->
  Forall (fun p => fst p < 100) burst ->
  debouncing (last (map snd burst) v) L (state_of (run (typing burst)) s)
  /\ search_calls (output_of (run (typing burst)) s) = [].
Proof.
  revert v s. induction burst as [|[g v'] burst IH]; intros v s Hd Hgaps.
  - split; [exact Hd | reflexivity].
  - inversion Hgaps as [|? ? Hg Hrest]; subst. simpl in Hg.
    destruct (quiet_advance v L g s Hd Hg) as [Hok [Hl Ho]].
    destruct (debouncing_input v' _ Hok) as [Hd' Ho'].
    rewrite Hl in Hd'.
    change (typing ((g, v') :: burst)) with ((g, Input v') :: typing burst).
    simpl run. rewrite state_of_bind, output_of_bind, state_of_tstep.
    simpl fst; simpl snd.
    destruct (IH v' _ Hd' Hrest) as [Hd'' Ho''].
    split.
    + simpl map. rewrite last_cons. exact Hd''.
    + rewrite search_calls_app, Ho'', output_of_tstep, search_calls_app.
      simpl fst; simpl snd. rewrite Ho, Ho'. reflexivity.
Qed.

Lemma quiet_period_fires (v : string) (L quiet : nat) (s : State) :
  debouncing v L s ->
  100 <= quiet ->
  search_calls (output_of (advance quiet) s) = [(S L, v)].
Proof.
  intros [Hok [Hq [Hl [t [Ht Hdue]]]]] Hquiet.
  rewrite advance_output, due_search_timers, Ht. simpl. unfold is_due.
  destruct (Nat.leb_spec (due t) (now s + quiet)); [|lia].
  simpl. now rewrite Hq, Hl.
Qed.

(** C3.  A burst of input changes whose gaps are all below 100 ms, followed
    by 100 ms or more of quiet, issues exactly one search call; the call
    carries the value of the last change of the burst, which is the query at
    the moment the timer fires.  Each input change leaves one debounce timer
    in the queue, the one it has just set: a pending one is cancelled. *)
Theorem debounce_coalescing (s : State) (v0 : string)
    (burst : list (nat * string)) (quiet : nat) :
  reachable s ->
  Forall (fun p => fst p < 100) burst ->
  100 <= quiet ->
  search_calls
    (output_of (step (Input v0) ;; run (typing burst) ;; advance quiet) s)
  = [(S (latestSearchId s), last (map snd burst) v0)]
  /\ query (state_of (step (Input v0) ;; run (typing burst)) s)
     = last (map snd burst) v0
  /\ search_timers (state_of (step (Input v0)) s)
     = [{| tid := nextTimer s; due := now s + 100; cb := CbSearch |}].
Proof.
  intros Hs Hgaps Hquiet.
  apply reachable_timers_ok in Hs.
  destruct (debouncing_input v0 s Hs) as [Hd Ho].
  destruct (burst_is_silent burst _ _ _ Hd Hgaps) as [Hd' Ho'].
  split; [|split].
  - rewrite !output_of_bind, !search_calls_app, Ho, Ho'. simpl.
    now apply quiet_period_fires.
  - rewrite state_of_bind. now destruct Hd' as [_ [Hq _]].
  - now apply input_rearms.
Qed.

Lemma debounce_coalescing_witness :
  search_calls
    (output_of (step (Input "r") ;; run (typing [(40, "re"); (99, "rep")])
                ;; advance 100) two_rows)
  = [(2, "rep")].
Proof.
  assert (Hr : reachable two_rows) by (apply reachable_run, reachable_init).
  assert (Hg : Forall (fun p : nat * string => fst p < 100)
                      [(40, "re"); (99, "rep")]).
  { repeat constructor; simpl; lia. }
  assert (Hq : 100 <= 100) by lia.
  exact (proj1 (debounce_coalescing two_rows "r" _ 100 Hr Hg Hq)).
Defined.

(** ** The scroll-suppression window *)

Lemma existsb_none {A} (p : A -> bool) (l : list A) :
  (forall x, In x l -> p x = false) -> existsb p l = false.
Proof.
  intro H. destruct (existsb p l) eqn:E; [|reflexivity].
  apply existsb_exists in E. destruct E as [x [Hx Hp]].
  rewrite (H x Hx) in Hp. discriminate.
Qed.

Lemma elapsed_cons (te : nat * Event) (tr : list (nat * Event)) :
  elapsed (te :: tr) = fst te + elapsed tr.
Proof. reflexivity. Qed.

Lemma tstep_now (te : nat * Event) (s : State) :
  now (state_of (tstep te) s) = now s + fst te.
Proof. now rewrite state_of_tstep, step_now, handle_now, advance_now. Qed.

Lemma run_now (tr : list (nat * Event)) (s : State) :
  now (state_of (run tr) s) = now s + elapsed tr.
Proof.
  revert s. induction tr as [|te tr IH]; intro s; simpl run.
  - change (state_of skip s) with s. unfold elapsed. simpl. lia.
  - rewrite state_of_bind, IH, tstep_now, elapsed_cons. lia.
Qed.

(** *** While the window lasts *)

Lemma suppressed_advance (D g : nat) (s : State) :
  suppressed_until D s ->
  now s + g < D ->
  suppressed_until D (state_of (advance g) s).
Proof.
  intros [Hm [Hn Ht]] Hg. split; [|split].
  - rewrite advance_isMouseScrolling, existsb_none; [exact Hm|].
    intros t Hin. apply filter_In in Hin. destruct Hin as [Hin Hdue].
    destruct (is_scroll_timer t) eqn:E; [|reflexivity].
    apply scroll_timer_cb in E. specialize (Ht t Hin E).
    unfold is_due in Hdue. apply Nat.leb_le in Hdue. lia.
  - rewrite advance_now. lia.
  - intros t Hin. rewrite advance_timers in Hin. apply filter_In in Hin.
    now apply Ht.
Qed.

Lemma suppressed_step (D : nat) (e : Event) (s : State) :
  suppressed_until D s ->
  suppressed_until D (state_of (step e) s).
Proof.
  intros [Hm [Hn Ht]]. split; [|split].
  - rewrite step_isMouseScrolling, handle_isMouseScrolling, Hm.
    now destruct (is_scroll_event e).
  - now rewrite step_now, handle_now.
  - intros t. rewrite step_timers, handle_timers.
    destruct e; auto; intros Hin Hcb; apply In_rearmed in Hin;
      destruct Hin as [[Hin _]|Hin]; auto; subst t; simpl in *;
      [discriminate | lia].
Qed.

Lemma suppressed_run (D : nat) (tr : list (nat * Event)) (s : State) :
  suppressed_until D s ->
  now s + elapsed tr < D ->
  suppressed_until D (state_of (run tr) s).
Proof.
  revert s. induction tr as [|te tr IH]; intros s Hs Hlt; simpl run.
  - exact Hs.
  - rewrite elapsed_cons in Hlt. rewrite state_of_bind. apply IH.
    + rewrite state_of_tstep. apply suppressed_step, suppressed_advance.
      * exact Hs.
      * lia.
    + rewrite tstep_now. lia.
Qed.

Lemma scroll_rearms (s : State) :
  timers_ok s ->
  filter is_scroll_timer (timers (state_of (step ListScroll) s))
  = [{| tid := nextTimer s; due := now s + 150; cb := CbScrollEnd |}].
Proof.
  intro Hok. rewrite step_timers, handle_timers. unfold rearmed.
  rewrite filter_app. simpl. rewrite filter_none; [reflexivity|].
  intros t Ht. apply In_cleared in Ht. destruct Ht as [Ht Hne].
  destruct (is_scroll_timer t) eqn:E; [|reflexivity].
  exfalso. apply Hne. apply (ok_scroll _ Hok); [assumption|].
  now apply scroll_timer_cb.
Qed.

Lemma scroll_suppresses (s : State) :
  timers_ok s ->
  suppressed_until (now s + 150) (state_of (step ListScroll) s).
Proof.
  intro Hok. split; [|split].
  - now rewrite step_isMouseScrolling, handle_isMouseScrolling.
  - rewrite step_now, handle_now. lia.
  - intros t Hin Hcb.
    assert (Hf : In t (filter is_scroll_timer
                         (timers (state_of (step ListScroll) s)))).
    { apply filter_In. split; [exact Hin | now apply scroll_timer_cb]. }
    rewrite (scroll_rearms _ Hok) in Hf. destruct Hf as [<-|[]]. simpl. lia.
Qed.

Lemma hover_while_scrolling (row mx my : Z) (s : State) :
  isMouseScrolling s = true ->
  exec (step (MouseMove row mx my)) s = (s, []).
Proof.
  intro H.
  assert (E : exec (handle (MouseMove row mx my)) s = (s, [])).
  { handler. simpl. now rewrite H. }
  rewrite exec_step_same_index; [exact E|].
  unfold state_of. now rewrite E.
Qed.

(** *** Once the window is over *)

Lemma released_advance (D g : nat) (s : State) :
  released_by D s -> released_by D (state_of (advance g) s).
Proof.
  intros Hr Hm. rewrite advance_isMouseScrolling in Hm.
  destruct (existsb _ _) eqn:E; [discriminate|].
  destruct (Hr Hm) as [t [Hin [Hcb Hdue]]].
  exists t. rewrite advance_timers. split; [|auto].
  apply filter_In. split; [exact Hin|].
  destruct (is_due (now s + g) t) eqn:Edue; [|reflexivity].
  exfalso. assert (X : existsb is_scroll_timer
                         (filter (is_due (now s + g)) (timers s)) = true).
  { apply existsb_exists. exists t. split.
    - apply filter_In. auto.
    - now apply scroll_timer_cb. }
  congruence.
Qed.

Lemma released_step (D : nat) (e : Event) (s : State) :
  timers_ok s ->
  is_scroll_event e = false ->
  released_by D s -> released_by D (state_of (step e) s).
Proof.
  intros Hok He Hr Hm.
  rewrite step_isMouseScrolling, handle_isMouseScrolling, He in Hm.
  destruct (Hr Hm) as [t [Hin [Hcb Hdue]]].
  exists t. rewrite step_timers, handle_timers. split; [|auto].
  destruct e; auto; try discriminate.
  apply In_rearmed. left. split; [exact Hin|].
  intro Hs. apply (ok_distinct _ Hok _ Hs). now apply (ok_scroll _ Hok).
Qed.

Lemma released_run (D : nat) (tr : list (nat * Event)) (s : State) :
  timers_ok s ->
  forallb (fun te => negb (is_scroll_event (snd te))) tr = true ->
  released_by D s -> released_by D (state_of (run tr) s).
Proof.
  revert s. induction tr as [|te tr IH]; intros s Hok Hns Hr; simpl run.
  - exact Hr.
  - simpl in Hns. apply andb_true_iff in Hns. destruct Hns as [Hte Hns].
    apply negb_true_iff in Hte.
    rewrite state_of_bind. apply IH.
    + now apply timers_ok_tstep.
    + exact Hns.
    + rewrite state_of_tstep. apply released_step.
      * now apply timers_ok_advance.
      * exact Hte.
      * now apply released_advance.
Qed.

Lemma scroll_releases (s : State) :
  released_by (now s + 150) (state_of (step ListScroll) s).
Proof.
  intros _. eexists. rewrite step_timers, handle_timers.
  split; [|split].
  - apply In_rearmed. right. reflexivity.
  - reflexivity.
  - simpl. lia.
Qed.

Lemma window_over (D d : nat) (s : State) :
  released_by D s ->
  D < now s + d ->
  isMouseScrolling (state_of (advance d) s) = false.
Proof.
  intros Hr Hd. rewrite advance_isMouseScrolling.
  destruct (existsb _ _) eqn:E; [reflexivity|].
  destruct (isMouseScrolling s) eqn:Hm; [|reflexivity].
  destruct (Hr Hm) as [t [Hin [Hcb Hdue]]].
  exfalso. assert (X : existsb is_scroll_timer
                         (filter (is_due (now s + d)) (timers s)) = true).
  { apply existsb_exists. exists t. split.
    - apply filter_In. split; [exact Hin|]. apply Nat.leb_le. lia.
    - now apply scroll_timer_cb. }
  congruence.
Qed.

(** C5.  Take a scroll event on the result list, then any events, then a
    hover over a row.  When the hover comes less than 150 ms after the scroll
    (hence after the last scroll, should the events in between contain
    others), it leaves [selectedIndex] as it is.  When it comes more than
    150 ms after the scroll, no other scroll event having come in between,
    and the pointer has moved, it sets [selectedIndex] to its row.  A scroll
    event leaves one scroll timer in the queue, due 150 ms later: a pending
    one is cancelled, so each scroll restarts the window. *)
Theorem mouse_suppression_window (s : State) (tr : list (nat * Event))
    (d : nat) (row mx my : Z) :
  reachable s ->
  let scrolled := state_of (step ListScroll) s in
  let before := state_of (run tr) scrolled in
  let after := state_of (tstep (d, MouseMove row mx my)) before in
  (elapsed tr + d < 150 -> selectedIndex after = selectedIndex before)
  /\ (150 < elapsed tr + d ->
      forallb (fun te => negb (is_scroll_event (snd te))) tr = true ->
      (mx <> 0 \/ my <> 0)%Z ->
      selectedIndex after = row)
  /\ filter is_scroll_timer (timers scrolled)
     = [{| tid := nextTimer s; due := now s + 150; cb := CbScrollEnd |}].
Proof.
  intros Hs scrolled before after.
  apply reachable_timers_ok in Hs.
  assert (Hnow : now scrolled = now s).
  { unfold scrolled. now rewrite step_now, handle_now. }
  split; [|split].
  - intro Hlt.
    assert (Hsup : suppressed_until (now s + 150)
                     (state_of (advance d) before)).
    { apply suppressed_advance.
      - apply suppressed_run; [now apply scroll_suppresses | lia].
      - unfold before. rewrite run_now. lia. }
    unfold after. rewrite state_of_tstep. simpl fst; simpl snd.
    unfold state_of at 1.
    rewrite hover_while_scrolling by apply Hsup.
    apply advance_selectedIndex.
  - intros Hgt Hns Hmv.
    assert (Hrel : released_by (now s + 150) before).
    { apply released_run; [now apply timers_ok_step | exact Hns |].
      apply scroll_releases. }
    assert (Hoff : isMouseScrolling (state_of (advance d) before) = false).
    { apply (window_over (now s + 150)); [exact Hrel|].
      unfold before. rewrite run_now. lia. }
    unfold after. rewrite state_of_tstep, step_selectedIndex.
    simpl fst; simpl snd. unfold state_of at 1.
    now rewrite (hover_selects _ _ _ _ Hoff Hmv).
  - now apply scroll_rearms.
Qed.

Lemma mouse_suppression_window_witness :
  let scrolled := state_of (step ListScroll) two_rows in
  selectedIndex (state_of (tstep (149, MouseMove 1 2 0)) scrolled) = 0%Z
  /\ selectedIndex
       (state_of (tstep (51, MouseMove 1 2 0))
                 (state_of (run [(100, KeyDown "x")]) scrolled)) = 1%Z.
Proof.
  assert (Hr : reachable two_rows) by (apply reachable_run, reachable_init).
  assert (Hm : (2 <> 0 \/ 0 <> 0)%Z) by (left; discriminate).
  split.
  - destruct (mouse_suppression_window two_rows [] 149 1%Z 2%Z 0%Z Hr)
      as [H _].
    apply H. simpl. lia.
  - destruct (mouse_suppression_window two_rows [(100, KeyDown "x")] 51
                1%Z 2%Z 0%Z Hr) as [_ [H _]].
    apply H; [simpl; lia | reflexivity | exact Hm].
Defined.

(** ** Two invariants of the reachable states *)

Lemma selection_valid_handle (e : Event) (s : State) :
  selection_valid s -> deliverable s e ->
  selection_valid (state_of (handle e) s).
Proof.
  unfold selection_valid. intros Hv Hd.
  destruct e; by_cases; simpl in *; auto; intro Hne;
    try congruence;
    try (specialize (Hv Hne));
    pose proof (nonempty_pos _ Hne);
    try lia;
    unfold js_rem; apply Z.rem_bound_pos; lia.
Qed.

Lemma selection_valid_tstep (te : nat * Event) (s : State) :
  selection_valid s ->
  deliverable (state_of (advance (fst te)) s) (snd te) ->
  selection_valid (state_of (tstep te) s).
Proof.
  intros Hv Hd. unfold selection_valid.
  rewrite state_of_tstep, step_results, step_selectedIndex.
  apply selection_valid_handle; [|exact Hd].
  unfold selection_valid. now rewrite advance_results, advance_selectedIndex.
Qed.

(** X1.  As long as pointer events name rendered rows, the selection names
    a row whenever the list has rows; a failed search, which empties the list
    without touching [selectedIndex], does not break this. *)
Lemma selection_stays_valid (tr : list (nat * Event)) (s : State) :
  selection_valid s -> deliverable_trace tr s ->
  selection_valid (state_of (run tr) s).
Proof.
  revert s. induction tr as [|te tr IH]; intros s Hv Hd; simpl run.
  - exact Hv.
  - destruct Hd as [Hd Hrest]. rewrite state_of_bind.
    apply IH; [|exact Hrest]. now apply selection_valid_tstep.
Qed.

Lemma pinned_handle (e : Event) (s : State) :
  theme_bg_image (settings s) = FIXED_BG_PATH ->
  theme_bg_image (settings (state_of (handle e) s)) = FIXED_BG_PATH.
Proof. intro H. destruct e; by_cases; auto. Qed.

(** X2.  The draft's background image is the fixed path in every
    reachable state, also when a load fails. *)
Lemma background_always_pinned (s : State) :
  reachable s -> theme_bg_image (settings s) = FIXED_BG_PATH.
Proof.
  induction 1 as [|s te _ IH].
  - reflexivity.
  - rewrite state_of_tstep, step_settings. apply pinned_handle.
    now rewrite advance_settings.
Qed.

(** ** The timer queue stays small *)

(** Removing timers from the queue keeps the handles pairwise different. *)
Lemma distinct_handles_filter (p : Timer -> bool) (l : list Timer) :
  NoDup (map tid l) -> NoDup (map tid (filter p l)).
Proof.
  induction l as [|t l IH]; simpl; intro Hd; [constructor|].
  apply NoDup_cons_iff in Hd. destruct Hd as [Hfresh Hd].
  destruct (p t); simpl; [|now apply IH].
  apply NoDup_cons_iff. split; [|now apply IH].
  contradict Hfresh. apply in_map_iff in Hfresh.
  destruct Hfresh as [u [Eu Hu]]. apply filter_In in Hu.
  rewrite <- Eu. apply in_map. tauto.
Qed.

Lemma same_handle_at_most_one (h : nat) (l : list Timer) :
  NoDup (map tid l) ->
  (forall t, In t l -> tid t = h) ->
  List.length l <= 1.
Proof.
  intros Hnd Hall. destruct l as [|a [|b l]]; simpl; try lia.
  exfalso. inversion Hnd as [|? ? Ha _]; subst. apply Ha. left.
  rewrite (Hall a), (Hall b); simpl; auto.
Qed.

Lemma timers_split (l : list Timer) :
  List.length l
  = List.length (filter is_search_timer l)
    + List.length (filter is_scroll_timer l).
Proof.
  induction l as [|t l IH]; simpl.
  - reflexivity.
  - unfold is_search_timer at 1, is_scroll_timer at 1.
    destruct (cb t); simpl; lia.
Qed.

Lemma cleared_NoDup (handle : option nat) (l : list Timer) :
  NoDup (map tid l) -> NoDup (map tid (cleared handle l)).
Proof.
  destruct handle; simpl; [apply distinct_handles_filter | auto].
Qed.

Lemma rearmed_distinct (handle : option nat) (c : Callback) (delay : nat)
    (s : State) :
  timers_distinct s ->
  NoDup (map tid (rearmed handle c delay s))
  /\ forall t, In t (rearmed handle c delay s) -> tid t < S (nextTimer s).
Proof.
  intros [Hnd Hlt]. split.
  - unfold rearmed. rewrite map_app. simpl.
    apply NoDup_app; [now apply cleared_NoDup | repeat constructor; simpl; tauto |].
    intros x Hx [<-|[]]. simpl in Hx.
    apply in_map_iff in Hx. destruct Hx as [t [Ht Hin]].
    apply In_cleared in Hin. apply proj1, Hlt in Hin. lia.
  - intros t Ht. apply In_rearmed in Ht. destruct Ht as [[Ht _]|Ht].
    + apply Hlt in Ht. lia.
    + subst t. simpl. lia.
Qed.

Lemma timers_distinct_handle (e : Event) (s : State) :
  timers_distinct s -> timers_distinct (state_of (handle e) s).
Proof.
  intro H. unfold timers_distinct.
  rewrite handle_timers, handle_nextTimer.
  destruct e; try exact H; now apply rearmed_distinct.
Qed.

Lemma timers_distinct_tstep (te : nat * Event) (s : State) :
  timers_distinct s -> timers_distinct (state_of (tstep te) s).
Proof.
  intros [Hnd Hlt].
  assert (Ha : timers_distinct (state_of (advance (fst te)) s)).
  { unfold timers_distinct. rewrite advance_timers, advance_nextTimer. split.
    - now apply distinct_handles_filter.
    - intros t Ht. apply filter_In in Ht. now apply Hlt. }
  apply (timers_distinct_handle (snd te)) in Ha.
  unfold timers_distinct in *.
  now rewrite state_of_tstep, step_timers, step_nextTimer.
Qed.

Lemma reachable_timers_distinct (s : State) :
  reachable s -> timers_distinct s.
Proof.
  induction 1 as [|s te _ IH].
  - split; [constructor | intros t []].
  - now apply timers_distinct_tstep.
Qed.

(** X3.  In every reachable state at most one debounce timer and at most
    one scroll timer are pending, so the queue never holds more than two
    timers, however many input changes and scroll events have come. *)
Theorem timers_bounded (s : State) :
  reachable s ->
  List.length (search_timers s) <= 1
  /\ List.length (filter is_scroll_timer (timers s)) <= 1
  /\ List.length (timers s) <= 2.
Proof.
  intro Hr.
  pose proof (reachable_timers_ok s Hr) as Hok.
  destruct (reachable_timers_distinct s Hr) as [Hnd _].
  assert (H1 : List.length (search_timers s) <= 1).
  { destruct (searchTimeout s) as [h|] eqn:Eh.
    - apply (same_handle_at_most_one h).
      + now apply distinct_handles_filter.
      + intros t Ht. apply filter_In in Ht. destruct Ht as [Hin Hcb].
        apply search_timer_cb in Hcb.
        pose proof (ok_search _ Hok _ Hin Hcb) as E. congruence.
    - unfold search_timers. rewrite filter_none; [simpl; lia|].
      intros t Hin. destruct (is_search_timer t) eqn:E; [|reflexivity].
      apply search_timer_cb in E.
      pose proof (ok_search _ Hok _ Hin E). congruence. }
  assert (H2 : List.length (filter is_scroll_timer (timers s)) <= 1).
  { destruct (scrollTimeout s) as [h|] eqn:Eh.
    - apply (same_handle_at_most_one h).
      + now apply distinct_handles_filter.
      + intros t Ht. apply filter_In in Ht. destruct Ht as [Hin Hcb].
        apply scroll_timer_cb in Hcb.
        pose proof (ok_scroll _ Hok _ Hin Hcb) as E. congruence.
    - rewrite filter_none; [simpl; lia|].
      intros t Hin. destruct (is_scroll_timer t) eqn:E; [|reflexivity].
      apply scroll_timer_cb in E.
      pose proof (ok_scroll _ Hok _ Hin E). congruence. }
  split; [exact H1 | split; [exact H2|]].
  rewrite timers_split. unfold search_timers in H1. lia.
Qed.

Lemma timers_bounded_witness :
  List.length
    (timers (state_of (run [ (0, Input "a"); (10, ListScroll);
                             (10, Input "ab"); (10, ListScroll) ]) init)) <= 2.
Proof.
  exact (proj2 (proj2 (timers_bounded _
                         (reachable_run
                            [ (0, Input "a"); (10, ListScroll);
                              (10, Input "ab"); (10, ListScroll) ]
                            init reachable_init)))).
Defined.

(** ** Teardown *)

Lemma unmounted_timers (u : bool) (s : State) :
  timers (unmounted u s)
  = cleared (scrollTimeout s) (cleared (searchTimeout s) (timers s)).
Proof.
  unfold unmounted, onUnmounted, clear_if_set, clearTimeout, bind, read,
    assign, skip, ret.
  destruct (searchTimeout s) eqn:E1, (scrollTimeout s) eqn:E2; simpl;
    rewrite ?E2; reflexivity.
Qed.

Lemma unmounted_frame (u : bool) (s : State) :
  latestSearchId (unmounted u s) = latestSearchId s
  /\ isMouseScrolling (unmounted u s) = isMouseScrolling s
  /\ query (unmounted u s) = query s
  /\ results (unmounted u s) = results s
  /\ snd (onUnmounted u s) = []
  /\ fst (fst (onUnmounted u s)) = u.
Proof.
  unfold unmounted, onUnmounted, clear_if_set, clearTimeout, bind, read,
    assign, skip, ret.
  destruct (searchTimeout s) eqn:E1, (scrollTimeout s) eqn:E2; simpl;
    rewrite ?E2; simpl; destruct u; repeat split.
Qed.

(** X4.  [onUnmounted] leaves the timer queue empty when it runs in a
    reachable state: whatever time passes afterwards, no callback runs, so no
    search is issued and nothing is written.  It makes no host call, and
    ends the event subscription exactly when one was stored. *)
Theorem unmount_cancels_timers (unlisten : bool) (s : State) :
  reachable s ->
  timers (unmounted unlisten s) = []
  /\ fst (fst (onUnmounted unlisten s)) = unlisten
  /\ snd (onUnmounted unlisten s) = []
  /\ forall d,
       output_of (advance d) (unmounted unlisten s) = []
       /\ latestSearchId (state_of (advance d) (unmounted unlisten s))
          = latestSearchId s
       /\ isMouseScrolling (state_of (advance d) (unmounted unlisten s))
          = isMouseScrolling s.
Proof.
  intro Hr. apply reachable_timers_ok in Hr.
  assert (E : timers (unmounted unlisten s) = []).
  { rewrite unmounted_timers.
    destruct (cleared _ _) as [|t l] eqn:El; [reflexivity|].
    exfalso. assert (Hin : In t (t :: l)) by now left.
    rewrite <- El in Hin. apply In_cleared in Hin. destruct Hin as [Hin H2].
    apply In_cleared in Hin. destruct Hin as [Hin H1].
    destruct (cb t) eqn:Ecb.
    - apply H1. now apply (ok_search _ Hr).
    - apply H2. now apply (ok_scroll _ Hr). }
  destruct (unmounted_frame unlisten s) as [Hl [Hm [_ [_ [Ho Hu]]]]].
  split; [exact E | split; [exact Hu | split; [exact Ho|]]].
  intro d. rewrite advance_output, advance_latestSearchId,
    advance_isMouseScrolling, E. simpl. rewrite Hl, Hm.
  split; [reflexivity | split; [lia | reflexivity]].
Qed.

Lemma unmount_cancels_timers_witness :
  timers (unmounted true
            (state_of (run [ (0, Input "a"); (10, ListScroll) ]) init)) = [].
Proof.
  exact (proj1 (unmount_cancels_timers true _
                  (reachable_run [ (0, Input "a"); (10, ListScroll) ]
                                 init reachable_init))).
Defined.

(** ** The debounce timer and the other events *)

Lemma filter_absorb {A} (p q : A -> bool) (l : list A) :
  (forall x, In x l -> p x = true -> q x = true) ->
  filter p (filter q l) = filter p l.
Proof.
  induction l as [|x l IH]; simpl; intro H.
  - reflexivity.
  - destruct (q x) eqn:Q; simpl.
    + rewrite IH by auto. reflexivity.
    + destruct (p x) eqn:P.
      * rewrite (H x) in Q by auto. discriminate.
      * apply IH. auto.
Qed.

Lemma search_timers_advance (d : nat) (s : State) :
  search_timers (state_of (advance d) s)
  = filter (fun t => negb (is_due (now s + d) t)) (search_timers s).
Proof. unfold search_timers. rewrite advance_timers. apply filter_swap. Qed.

Lemma single_timer_fires (t : Timer) (d : nat) (s : State) :
  search_timers s = [t] ->
  due t <= now s + d ->
  search_calls (output_of (advance d) s) = [(S (latestSearchId s), query s)].
Proof.
  intros Ht Hd. rewrite advance_output, due_search_timers, Ht. simpl.
  unfold is_due. destruct (Nat.leb_spec (due t) (now s + d)); [|lia].
  reflexivity.
Qed.

Lemma single_timer_waits (t : Timer) (g : nat) (s : State) :
  search_timers s = [t] ->
  now s + g < due t ->
  search_calls (output_of (advance g) s) = []
  /\ latestSearchId (state_of (advance g) s) = latestSearchId s
  /\ search_timers (state_of (advance g) s) = [t].
Proof.
  intros Ht Hg.
  assert (E : is_due (now s + g) t = false).
  { unfold is_due. apply Nat.leb_gt. lia. }
  split; [|split].
  - rewrite advance_output, due_search_timers, Ht. simpl. now rewrite E.
  - rewrite advance_latestSearchId, due_search_timers, Ht. simpl.
    rewrite E. simpl. lia.
  - rewrite search_timers_advance, Ht. simpl. now rewrite E.
Qed.

Lemma neutral_handle (e : Event) (s : State) :
  neutral e = true ->
  search_calls (output_of (handle e) s) = []
  /\ latestSearchId (state_of (handle e) s) = latestSearchId s
  /\ query (state_of (handle e) s) = query s.
Proof.
  intro Hn. destruct e; simpl in Hn; try discriminate.
  all: try (by_cases; auto; fail).
  - apply negb_true_iff in Hn. by_cases; auto; congruence.
  - destruct r; [discriminate|]. by_cases; auto.
Qed.

Lemma neutral_search_timers (e : Event) (s : State) :
  timers_ok s ->
  neutral e = true ->
  search_timers (state_of (handle e) s) = search_timers s.
Proof.
  intros Hok Hn. unfold search_timers. rewrite handle_timers.
  destruct e; try reflexivity; [discriminate|].
  unfold rearmed. rewrite filter_app. simpl. rewrite app_nil_r.
  destruct (scrollTimeout s) as [h|] eqn:Eh; simpl; [|reflexivity].
  apply filter_absorb. intros t Hin Hs.
  apply search_timer_cb in Hs.
  apply negb_true_iff, Nat.eqb_neq. intro E.
  pose proof (ok_search _ Hok _ Hin Hs) as Hh.
  apply (ok_distinct _ Hok _ Hh). congruence.
Qed.

Lemma pending_tstep (v : string) (L D : nat) (te : nat * Event) (s : State) :
  pending_search v L D s ->
  neutral (snd te) = true ->
  now s + fst te < D ->
  pending_search v L D (state_of (tstep te) s)
  /\ search_calls (output_of (tstep te) s) = [].
Proof.
  intros [Hok [Hq [Hl [Hn [t [Ht Hdue]]]]]] Hne Hlt.
  destruct (single_timer_waits t (fst te) s Ht) as [Ho [Hl' Ht']]; [lia|].
  pose proof (timers_ok_advance (fst te) s Hok) as Hok'.
  destruct (neutral_handle (snd te) (state_of (advance (fst te)) s) Hne)
    as [Ho2 [Hl2 Hq2]].
  split.
  - rewrite state_of_tstep. split; [|split; [|split; [|split]]].
    + now apply timers_ok_step.
    + now rewrite step_query, Hq2, advance_query.
    + now rewrite step_latestSearchId, Hl2, Hl'.
    + rewrite step_now, handle_now, advance_now. exact Hlt.
    + exists t. split; [|exact Hdue].
      unfold search_timers. rewrite step_timers.
      fold (search_timers (state_of (handle (snd te))
                                    (state_of (advance (fst te)) s))).
      now rewrite neutral_search_timers.
  - now rewrite output_of_tstep, search_calls_app, step_search_calls, Ho, Ho2.
Qed.

Lemma pending_run (v : string) (L D : nat) (tr : list (nat * Event))
    (s : State) :
  pending_search v L D s ->
  forallb (fun te => neutral (snd te)) tr = true ->
  now s + elapsed tr < D ->
  pending_search v L D (state_of (run tr) s)
  /\ search_calls (output_of (run tr) s) = [].
Proof.
  revert s. induction tr as [|te tr IH]; intros s Hp Hn Hlt; simpl run.
  - split; [exact Hp | reflexivity].
  - simpl in Hn. apply andb_true_iff in Hn. destruct Hn as [Hte Hn].
    rewrite elapsed_cons in Hlt.
    destruct (pending_tstep v L D te s Hp Hte) as [Hp' Ho]; [lia|].
    destruct (IH _ Hp' Hn) as [Hp'' Ho'].
    { rewrite tstep_now. lia. }
    rewrite state_of_bind, output_of_bind, search_calls_app, Ho, Ho'.
    split; [exact Hp'' | reflexivity].
Qed.

Lemma pending_after_input (v : string) (s : State) :
  timers_ok s ->
  pending_search v (latestSearchId s) (now s + 100) (state_of (step (Input v)) s)
  /\ search_calls (output_of (step (Input v)) s) = [].
Proof.
  intro Hok. destruct (debouncing_input v s Hok) as [[H1 [H2 [H3 [t [Ht Hd]]]]] Ho].
  split; [|exact Ho].
  assert (Hnow : now (state_of (step (Input v)) s) = now s).
  { now rewrite step_now, handle_now. }
  split; [exact H1 | split; [exact H2 | split; [exact H3 | split]]].
  - rewrite Hnow. lia.
  - exists t. split; [exact Ht|]. rewrite Hd, Hnow. reflexivity.
Qed.

(** X5.  What happens during the quiet period, other than an input change,
    Escape or a successful save, neither cancels nor repeats the pending
    search: hovers, scrolls, arrow and character keys, clicks, settings
    edits and arriving answers may come in any number before the 100 ms are
    over, and still exactly one search call is made, for the value typed. *)
Theorem debounce_survives_other_events (s : State) (v : string)
    (tr : list (nat * Event)) (quiet : nat) :
  reachable s ->
  forallb (fun te => neutral (snd te)) tr = true ->
  elapsed tr < 100 ->
  100 <= elapsed tr + quiet ->
  search_calls (output_of (step (Input v) ;; run tr ;; advance quiet) s)
  = [(S (latestSearchId s), v)].
Proof.
  intros Hr Hn Hlt Hq. apply reachable_timers_ok in Hr.
  destruct (pending_after_input v s Hr) as [Hp Ho].
  assert (Hnow : now (state_of (step (Input v)) s) = now s).
  { now rewrite step_now, handle_now. }
  destruct (pending_run v _ _ tr _ Hp Hn) as [Hp' Ho']; [rewrite Hnow; lia|].
  destruct Hp' as [_ [Hq' [Hl' [_ [t [Ht Hd]]]]]].
  rewrite !output_of_bind, !search_calls_app, Ho, Ho'. simpl.
  rewrite (single_timer_fires t quiet _ Ht), Hq', Hl'; [reflexivity|].
  rewrite Hd, run_now, Hnow. lia.
Qed.

Lemma debounce_survives_other_events_witness :
  search_calls
    (output_of (step (Input "ab")
                ;; run [ (20, ListScroll); (20, KeyDown "ArrowDown");
                         (20, MouseMove 1 2 0);
                         (20, SearchSettled 1 (Rejected "late")) ]
                ;; advance 20) two_rows)
  = [(2, "ab")].
Proof.
  assert (Hr : reachable two_rows) by (apply reachable_run, reachable_init).
  apply (debounce_survives_other_events two_rows "ab" _ 20 Hr).
  - reflexivity.
  - vm_compute. lia.
  - vm_compute. lia.
Defined.

Lemma escape_with_query (s : State) :
  query s <> "" ->
  exec (step (KeyDown "Escape")) s
  = (set_isLoading true
       (set_latestSearchId (S (latestSearchId s)) (set_query "" s)),
     [InvokeSearch (S (latestSearchId s)) ""]).
Proof.
  intro Hq.
  assert (E : exec (handle (KeyDown "Escape")) s
              = (set_isLoading true
                   (set_latestSearchId (S (latestSearchId s)) (set_query "" s)),
                 [InvokeSearch (S (latestSearchId s)) ""])).
  { handler. simpl.
    destruct (String.length (query s)) eqn:L; [|reflexivity].
    now apply length_zero_empty in L. }
  rewrite exec_step_same_index; [exact E|].
  unfold state_of. now rewrite E.
Qed.

(** X6.  Escape does not cancel the debounce timer.  When Escape is pressed
    less than 100 ms after an input change that left a non-empty query, the
    search for the empty string is issued at once, and the pending timer
    still fires when its 100 ms are over and issues a second search, for the
    query as it is then: the empty string again. *)
Theorem escape_during_debounce (s : State) (v : string) (g quiet : nat) :
  reachable s ->
  v <> "" ->
  g < 100 ->
  100 <= g + quiet ->
  search_calls
    (output_of (step (Input v) ;; tstep (g, KeyDown "Escape") ;; advance quiet) s)
  = [(S (latestSearchId s), ""); (S (S (latestSearchId s)), "")].
Proof.
  intros Hr Hv Hg Hq. apply reachable_timers_ok in Hr.
  destruct (pending_after_input v s Hr) as [Hp Ho].
  destruct Hp as [Hok [Hqv [Hl [Hn [t [Ht Hd]]]]]].
  assert (Hnow : now (state_of (step (Input v)) s) = now s).
  { now rewrite step_now, handle_now. }
  set (s1 := state_of (step (Input v)) s) in *.
  destruct (single_timer_waits t g s1 Ht) as [Ho1 [Hl1 Ht1]]; [lia|].
  set (sa := state_of (advance g) s1) in *.
  assert (Hqa : query sa <> "").
  { unfold sa. now rewrite advance_query, Hqv. }
  pose proof (escape_with_query sa Hqa) as Hesc.
  assert (Hq2 : query (state_of (step (KeyDown "Escape")) sa) = "").
  { unfold state_of. now rewrite Hesc. }
  assert (Ho2 : output_of (step (KeyDown "Escape")) sa
                = [InvokeSearch (S (latestSearchId sa)) ""]).
  { unfold output_of. now rewrite Hesc. }
  assert (Hl2 : latestSearchId (state_of (step (KeyDown "Escape")) sa)
                = S (latestSearchId sa)).
  { unfold state_of. now rewrite Hesc. }
  clear Hesc.
  set (se := state_of (step (KeyDown "Escape")) sa) in *.
  assert (Hte : search_timers se = [t]).
  { unfold se, search_timers. now rewrite step_timers, handle_timers. }
  assert (Hnow_e : now se = now s + g).
  { unfold se, sa. now rewrite step_now, handle_now, advance_now, Hnow. }
  rewrite !output_of_bind, !search_calls_app, Ho, output_of_tstep,
    search_calls_app, state_of_tstep.
  simpl fst; simpl snd. fold s1 sa se.
  rewrite Ho1, Ho2, (single_timer_fires t quiet se Hte) by lia.
  rewrite Hq2, Hl2, Hl1, Hl. reflexivity.
Qed.

Lemma escape_during_debounce_witness :
  search_calls
    (output_of (step (Input "abc") ;; tstep (30, KeyDown "Escape")
                ;; advance 70) init)
  = [(1, ""); (2, "")].
Proof.
  apply (escape_during_debounce init "abc" 30 70 reachable_init).
  - discriminate.
  - lia.
  - lia.
Defined.

(** ** The loading flag and the current token *)

Lemma step_isLoading e s :
  isLoading (state_of (step e) s) = isLoading (state_of (handle e) s).
Proof. step_frame e s. Qed.

Lemma handle_keeps_loading (e : Event) (s : State) :
  isLoading s = true ->
  accepted_by s e = [] ->
  isLoading (state_of (handle e) s) = true.
Proof.
  intros Hl Hacc. destruct e; simpl in Hacc.
  all: try (by_cases; auto; fail).
  destruct (currentSearchId =? latestSearchId s) eqn:E; [discriminate|].
  unfold state_of. simpl handle.
  rewrite stale_resume by (now apply Nat.eqb_neq). exact Hl.
Qed.

Lemma run_callbacks_keep_loading (l : list Timer) (s : State) :
  isLoading s = true -> isLoading (state_of (run_callbacks l) s) = true.
Proof.
  revert s. induction l as [|t l IH]; intros s H; simpl.
  - exact H.
  - rewrite state_of_bind. apply IH. destruct (cb t); [reflexivity | exact H].
Qed.

Lemma advance_keeps_loading (d : nat) (s : State) :
  isLoading s = true -> isLoading (state_of (advance d) s) = true.
Proof.
  intro H. rewrite state_of_advance. now apply run_callbacks_keep_loading.
Qed.

Lemma loading_persists (tr : list (nat * Event)) (s : State) :
  isLoading s = true ->
  accepted tr s = [] ->
  isLoading (state_of (run tr) s) = true.
Proof.
  revert s. induction tr as [|te tr IH]; intros s Hl Hacc; simpl run.
  - exact Hl.
  - simpl in Hacc. apply app_eq_nil in Hacc. destruct Hacc as [Ha Hrest].
    rewrite state_of_bind. apply IH; [|exact Hrest].
    rewrite state_of_tstep, step_isLoading.
    apply handle_keeps_loading; [|exact Ha].
    now apply advance_keeps_loading.
Qed.

(** X7.  Once the loading flag is set, only an accepted answer clears it:
    along a trace in which no settled search carries the current token, the
    flag stays set, whatever else happens and however many stale answers
    arrive; and as long as it is set the template's "no results" block is
    not shown. *)
Theorem loading_until_accepted (tr : list (nat * Event)) (s : State) :
  isLoading s = true ->
  accepted tr s = [] ->
  isLoading (state_of (run tr) s) = true
  /\ empty_state (state_of (run tr) s) = false.
Proof.
  intros Hl Hacc. pose proof (loading_persists tr s Hl Hacc) as H.
  split; [exact H|]. unfold empty_state. rewrite H. apply andb_false_r.
Qed.

Lemma loading_until_accepted_witness :
  isLoading
    (state_of (run [ (100, SearchSettled 1 (Resolved [item "a.txt"]));
                     (10, KeyDown "ArrowDown");
                     (10, SearchSettled 1 (Rejected "late")) ])
              (state_of (step (Input "ab")) two_rows)) = true.
Proof.
  apply (loading_until_accepted
           [ (100, SearchSettled 1 (Resolved [item "a.txt"]));
             (10, KeyDown "ArrowDown");
             (10, SearchSettled 1 (Rejected "late")) ]
           (state_of (step (Input "ab")) two_rows)); reflexivity.
Defined.

Lemma last_seq (a k : nat) : last (seq (S a) k) a = a + k.
Proof.
  revert a. induction k as [|k IH]; intro a.
  - simpl. lia.
  - change (seq (S a) (S k)) with (S a :: seq (S (S a)) k).
    rewrite last_cons, IH. lia.
Qed.

(** X8.  At any moment the current token is the token of the search call
    made last (or the token there was at the start, when no call was made
    since): an answer to the most recent call is never stale. *)
Theorem newest_call_is_current (tr : list (nat * Event)) (s : State) :
  last (map fst (search_calls (output_of (run tr) s))) (latestSearchId s)
  = latestSearchId (state_of (run tr) s).
Proof.
  destruct (run_tokens tr s) as [k [Hl Ht]].
  rewrite Ht, Hl. apply last_seq.
Qed.

(** ** A flag that is written and never read *)

Ltac related_states s1 s2 H :=
  destruct s1, s2; unfold same_but_selection_gate in H; simpl in H;
  injection H; intros; subst.

Lemma ignores_bind (m k : M unit) :
  ignores_selection_gate m -> ignores_selection_gate k ->
  ignores_selection_gate (m ;; k).
Proof.
  intros Hm Hk s1 s2 H.
  destruct (Hm s1 s2 H) as [Ho Hs].
  destruct (Hk _ _ Hs) as [Ho' Hs'].
  rewrite !output_of_bind, !state_of_bind, Ho, Ho'. auto.
Qed.

Lemma ignores_handle (e : Event) : ignores_selection_gate (handle e).
Proof.
  intros s1 s2 H. related_states s1 s2 H.
  unfold same_but_selection_gate.
  destruct e; by_cases; split; reflexivity.
Qed.

Lemma ignores_watch (i : Z) : ignores_selection_gate (watch_selectedIndex i).
Proof.
  intros s1 s2 H. related_states s1 s2 H.
  unfold same_but_selection_gate.
  handler. unfold resultListRef, children_length, empty_state. simpl.
  split_cases; split; reflexivity.
Qed.

Lemma ignores_callback (c : Callback) : ignores_selection_gate (run_callback c).
Proof.
  intros s1 s2 H. related_states s1 s2 H.
  unfold same_but_selection_gate. destruct c; split; reflexivity.
Qed.

Lemma ignores_callbacks (l : list Timer) :
  ignores_selection_gate (run_callbacks l).
Proof.
  induction l as [|t l IH]; simpl.
  - intros s1 s2 H. split; [reflexivity | exact H].
  - apply ignores_bind; [apply ignores_callback | exact IH].
Qed.

Lemma same_selectedIndex (s1 s2 : State) :
  same_but_selection_gate s1 s2 -> selectedIndex s1 = selectedIndex s2.
Proof. intro H. exact (f_equal selectedIndex H). Qed.

Lemma ignores_advance (d : nat) : ignores_selection_gate (advance d).
Proof.
  intros s1 s2 H.
  rewrite !output_of_advance, !state_of_advance.
  assert (Hn : now s1 = now s2) by exact (f_equal now H).
  assert (Ht : timers s1 = timers s2) by exact (f_equal timers H).
  rewrite Hn, Ht. apply ignores_callbacks.
  related_states s1 s2 H. reflexivity.
Qed.

Lemma output_of_step (e : Event) (s : State) :
  output_of (step e) s =
  if (selectedIndex (state_of (handle e) s) =? selectedIndex s)%Z
  then output_of (handle e) s
  else output_of (handle e) s
       ++ output_of (watch_selectedIndex (selectedIndex (state_of (handle e) s)))
                    (state_of (handle e) s).
Proof.
  unfold output_of at 1. rewrite exec_step. cbv zeta.
  now destruct (_ =? _)%Z.
Qed.

Lemma state_of_step_cases (e : Event) (s : State) :
  state_of (step e) s =
  if (selectedIndex (state_of (handle e) s) =? selectedIndex s)%Z
  then state_of (handle e) s
  else state_of (watch_selectedIndex (selectedIndex (state_of (handle e) s)))
                (state_of (handle e) s).
Proof.
  unfold state_of at 1. rewrite exec_step. cbv zeta.
  now destruct (_ =? _)%Z.
Qed.

Lemma ignores_step (e : Event) : ignores_selection_gate (step e).
Proof.
  intros s1 s2 H.
  destruct (ignores_handle e s1 s2 H) as [Ho Hs].
  pose proof (same_selectedIndex _ _ H) as Hi.
  pose proof (same_selectedIndex _ _ Hs) as Hi'.
  rewrite !output_of_step, !state_of_step_cases, Hi, Hi'.
  destruct (_ =? _)%Z.
  - auto.
  - destruct (ignores_watch
                (selectedIndex (state_of (handle e) s2)) _ _ Hs)
      as [Ho' Hs'].
    rewrite Ho, Ho'. auto.
Qed.

Lemma ignores_run (tr : list (nat * Event)) : ignores_selection_gate (run tr).
Proof.
  induction tr as [|te tr IH]; simpl.
  - intros s1 s2 H. split; [reflexivity | exact H].
  - apply ignores_bind; [|exact IH].
    unfold tstep. apply ignores_bind; [apply ignores_advance | apply ignores_step].
Qed.

(** X9.  [isKeyboardSelection] is written and never read: whatever value
    the flag has, every later trace of events makes the same host calls and
    ends in the same state, but for the flag itself. *)
Theorem selection_gate_is_never_read (b : bool) (tr : list (nat * Event))
    (s : State) :
  output_of (run tr) (set_isKeyboardSelection b s) = output_of (run tr) s
  /\ same_but_selection_gate
       (state_of (run tr) (set_isKeyboardSelection b s))
       (state_of (run tr) s).
Proof.
  apply ignores_run. reflexivity.
Qed.

(** ** Running a result *)

Lemma enter_output (s : State) :
  exec (step (KeyDown "Enter")) s
  = (if List.length (results s) =? 0 then s
     else set_isKeyboardSelection true (set_isKeyboardScroll true s),
     match js_index (results s) (selectedIndex s) with
     | Some it => [InvokeExecuteItem (id it) (query s)]
     | None => []
     end).
Proof.
  assert (E : exec (handle (KeyDown "Enter")) s
              = (if List.length (results s) =? 0 then s
                 else set_isKeyboardSelection true (set_isKeyboardScroll true s),
                 match js_index (results s) (selectedIndex s) with
                 | Some it => [InvokeExecuteItem (id it) (query s)]
                 | None => []
                 end)).
  { handler. simpl.
    destruct (results s) as [|r l] eqn:Er; simpl.
    - unfold js_index. destruct (selectedIndex s <? 0)%Z; [reflexivity|].
      now destruct (Z.to_nat (selectedIndex s)).
    - destruct (js_index (r :: l) (selectedIndex s)); reflexivity. }
  rewrite exec_step_same_index; [exact E|].
  unfold state_of. rewrite E. simpl. now destruct (_ =? 0).
Qed.

(** X10.  Enter asks the host to run the row that [selectedIndex] names,
    with the query as it is, exactly once; it asks for nothing when the list
    is empty or the index names no row.  It leaves the list, the selection,
    the query and the token as they are. *)
Theorem enter_runs_selected (s : State) :
  let s' := state_of (step (KeyDown "Enter")) s in
  output_of (step (KeyDown "Enter")) s
  = match js_index (results s) (selectedIndex s) with
    | Some it => [InvokeExecuteItem (id it) (query s)]
    | None => []
    end
  /\ results s' = results s
  /\ selectedIndex s' = selectedIndex s
  /\ query s' = query s
  /\ latestSearchId s' = latestSearchId s.
Proof.
  cbv zeta. unfold output_of, state_of. rewrite enter_output. simpl.
  destruct (_ =? 0); repeat split.
Qed.

(** X11.  Enter pressed after a non-empty answer was accepted, with nothing
    in between, runs the first row of that answer, whatever was selected
    before the answer came. *)
Theorem enter_after_answer_runs_first (first : SearchResult)
    (rest : list SearchResult) (s : State) :
  output_of (step (KeyDown "Enter"))
            (state_of (step (SearchSettled (latestSearchId s)
                                           (Resolved (first :: rest)))) s)
  = [InvokeExecuteItem (id first) (query s)].
Proof.
  set (s1 := state_of (step _) s).
  assert (H : results s1 = first :: rest /\ selectedIndex s1 = 0%Z
              /\ query s1 = query s).
  { unfold s1. rewrite step_results, step_selectedIndex, step_query.
    unfold state_of. simpl handle. handler.
    rewrite Nat.eqb_refl. simpl. rewrite Nat.eqb_refl. simpl. auto. }
  destruct H as [Hr [Hi Hq]].
  unfold output_of. rewrite enter_output, Hr, Hi, Hq. reflexivity.
Qed.

(** ** The scroll gate is spent by one scroll *)

Lemma watch_gate_clear (i : Z) (s : State) :
  isKeyboardScroll s = false ->
  exec (watch_selectedIndex i) s = (s, []).
Proof. intro H. handler. simpl. now rewrite H. Qed.

Lemma hover_output (row mx my : Z) (s : State) :
  isKeyboardScroll s = false ->
  output_of (step (MouseMove row mx my)) s = [].
Proof.
  intro Hk. rewrite output_of_step.
  assert (Ho : output_of (handle (MouseMove row mx my)) s = []).
  { by_cases; reflexivity. }
  assert (Hg : isKeyboardScroll (state_of (handle (MouseMove row mx my)) s)
               = false).
  { by_cases; assumption. }
  rewrite Ho. destruct (_ =? _)%Z; [reflexivity|].
  unfold output_of. now rewrite watch_gate_clear.
Qed.

Lemma next_row_differs (i n : Z) :
  (2 <= n)%Z -> (0 <= i < n)%Z -> ((i + 1) mod n <> i)%Z.
Proof.
  intros Hn Hi. destruct (Z.eq_dec (i + 1) n) as [E|E].
  - rewrite E, Z.mod_same by lia. lia.
  - rewrite Z.mod_small by lia. lia.
Qed.

(** X12.  The scroll that an arrow key asks for is asked for once.  With at
    least two rows in the main view, Down moves the selection, the watcher
    scrolls the new row into view and clears the scroll gate; a hover that
    follows, over whatever row, scrolls nothing. *)
Theorem arrow_scrolls_once (s : State) :
  let n := Z.of_nat (List.length (results s)) in
  let i := selectedIndex s in
  showSettings s = false ->
  (2 <= n)%Z ->
  (0 <= i < n)%Z ->
  let s' := state_of (step (KeyDown "ArrowDown")) s in
  output_of (step (KeyDown "ArrowDown")) s
  = [PreventDefault; ScrollIntoView ((i + 1) mod n)]
  /\ isKeyboardScroll s' = false
  /\ forall row mx my, output_of (step (MouseMove row mx my)) s' = [].
Proof.
  intros n i Hv Hn Hi s'.
  assert (Hne : results s <> []).
  { intro E. subst n. rewrite E in Hn. simpl in Hn. lia. }
  assert (Hrem : js_rem (i + 1) n = ((i + 1) mod n)%Z).
  { unfold js_rem. apply Z.rem_mod_nonneg; lia. }
  pose proof (next_row_differs i n Hn Hi) as Hd.
  pose proof (Z.mod_pos_bound (i + 1) n ltac:(lia)) as Hb.
  assert (E : exec (step (KeyDown "ArrowDown")) s
              = (set_isKeyboardScroll false
                   (set_selectedIndex ((i + 1) mod n)
                      (set_isKeyboardSelection true
                         (set_isKeyboardScroll true s))),
                 [PreventDefault; ScrollIntoView ((i + 1) mod n)])).
  { rewrite exec_step. cbv zeta. unfold state_of, output_of.
    rewrite (arrow_down _ Hne). cbv zeta. cbn [fst snd].
    fold n i. rewrite Hrem.
    change (selectedIndex (set_selectedIndex ((i + 1) mod n) _))
      with ((i + 1) mod n)%Z.
    apply Z.eqb_neq in Hd. fold i. rewrite Hd.
    handler. simpl. unfold resultListRef, children_length. simpl.
    rewrite Hv. simpl. fold n.
    assert (G : ((i + 1) mod n
                 >=? n + (if empty_state
                               (set_selectedIndex ((i + 1) mod n)
                                  (set_isKeyboardSelection true
                                     (set_isKeyboardScroll true s)))
                          then 1 else 0))%Z = false).
    { rewrite Z.geb_leb. apply Z.leb_gt. destruct (empty_state _); lia. }
    rewrite G.
    assert (P : (0 <=? (i + 1) mod n)%Z = true) by (apply Z.leb_le; lia).
    rewrite P. reflexivity. }
  subst s'. unfold output_of at 1, state_of. rewrite E. simpl.
  split; [reflexivity | split; [reflexivity|]].
  intros row mx my. now apply hover_output.
Qed.

Lemma arrow_scrolls_once_witness :
  output_of (step (KeyDown "ArrowDown")) two_rows
  = [PreventDefault; ScrollIntoView 1]
  /\ output_of (step (MouseMove 0 1 1))
               (state_of (step (KeyDown "ArrowDown")) two_rows) = [].
Proof.
  assert (Hv : showSettings two_rows = false) by reflexivity.
  assert (Hn : (2 <= Z.of_nat (List.length (results two_rows)))%Z).
  { vm_compute. discriminate. }
  assert (Hi : (0 <= selectedIndex two_rows
                < Z.of_nat (List.length (results two_rows)))%Z).
  { vm_compute. split; congruence. }
  destruct (arrow_scrolls_once two_rows Hv Hn Hi) as [Ho [_ Hh]].
  split; [exact Ho | apply Hh].
Defined.

(** ** Saving and loading the settings *)


Lemma save_resolved (u : unit) (s : State) :
  exec (step (SaveSettingsSettled (Resolved u))) s
  = (set_isLoading true
       (set_latestSearchId (S (latestSearchId s)) (set_showSettings false s)),
     [FocusInput; InvokeSearch (S (latestSearchId s)) (query s)]).
Proof. now rewrite exec_step_same_index. Qed.

(** X14.  When the store confirms a save, the panel closes, the input gets
    the focus back and the current query is searched again under the next
    token; the draft stays what the save sent. *)
Theorem save_success_searches_again (u : unit) (s : State) :
  let clicked := state_of (step ClickSave) s in
  let s' := state_of (step (SaveSettingsSettled (Resolved u))) clicked in
  output_of (step (SaveSettingsSettled (Resolved u))) clicked
  = [FocusInput; InvokeSearch (S (latestSearchId s)) (query s)]
  /\ showSettings s' = false
  /\ isLoading s' = true
  /\ latestSearchId s' = S (latestSearchId s)
  /\ settings s' = settings clicked.
Proof.
  cbv zeta. unfold output_of, state_of.
  rewrite save_resolved, save_click. simpl. repeat split.
Qed.





(** ** Witnesses for the invariants *)

Lemma selection_stays_valid_witness :
  selection_valid
    (state_of (run [ (0, Input "a");
                     (100, SearchSettled 1 (Resolved [item "a.txt"; item "ab.txt"]));
                     (10, MouseMove 1 2 0);
                     (10, Input "ab");
                     (100, SearchSettled 2 (Rejected "timeout")) ]) init).
Proof.
  apply selection_stays_valid.
  - intro H. exfalso. apply H. reflexivity.
  - simpl. repeat split; vm_compute; congruence.
Defined.

Lemma background_always_pinned_witness :
  theme_bg_image (settings panel_open) = FIXED_BG_PATH.
Proof.
  apply background_always_pinned.
  apply (reachable_run [ (0, ClickSettings);
                         (20, GetSettingsSettled (Resolved persisted)) ]).
  exact reachable_init.
Defined.

(** ** The icon of a row *)

Lemma extension_none (s : string) : extension s = None <-> has_dot s = false.
Proof.
  induction s as [|c s IH]; simpl.
  - tauto.
  - destruct (extension s) as [e|].
    + assert (has_dot s = true).
      { destruct (has_dot s); [reflexivity|].
        destruct IH as [_ IH]. discriminate IH. reflexivity. }
      rewrite H, orb_true_r. split; discriminate.
    + destruct IH as [IH _]. rewrite (IH eq_refl), orb_false_r.
      destruct (c =? ".")%char; split; congruence.
Qed.

Lemma ends_with_extension (e path : string) :
  has_dot e = false ->
  ends_with (String "." e) path = true <-> extension path = Some e.
Proof.
  intro He. induction path as [|c rest IH].
  - simpl. split; discriminate.
  - change (ends_with (String "." e) (String c rest))
      with ((String c rest =? String "." e)%string
            || ends_with (String "." e) rest).
    simpl extension.
    destruct (extension rest) as [x|] eqn:Ex.
    + assert (Hne : (String c rest =? String "." e)%string = false).
      { apply String.eqb_neq. intro E. injection E as _ E. subst rest.
        apply extension_none in He. congruence. }
      rewrite Hne. simpl. exact IH.
    + assert (Hno : ends_with (String "." e) rest = false).
      { destruct (ends_with (String "." e) rest); [|reflexivity].
        destruct IH as [IH _]. discriminate IH. reflexivity. }
      rewrite Hno, orb_false_r. simpl String.eqb.
      destruct (Ascii.eqb_spec c "."%char) as [->|Hc].
      * simpl. rewrite String.eqb_eq. split; congruence.
      * split; [|discriminate].
        destruct (Ascii.eqb_spec c "."%char); [contradiction | discriminate].
Qed.

Lemma test_extensions_known (exts : list string) (path : string) :
  forallb (fun e => negb (has_dot e)) exts = true ->
  test_extensions exts path
  = match extension path with
    | Some e => known exts e
    | None => false
    end.
Proof.
  intro Hd. unfold test_extensions, known.
  induction exts as [|x exts IH]; simpl.
  - now destruct (extension path).
  - simpl in Hd. apply andb_true_iff in Hd. destruct Hd as [Hx Hd].
    apply negb_true_iff in Hx. rewrite (IH Hd).
    pose proof (ends_with_extension x path Hx) as Hiff.
    destruct (extension path) as [e|].
    + destruct (String.eqb_spec e x) as [->|Hne].
      * destruct Hiff as [_ H]. rewrite H; reflexivity.
      * destruct (ends_with (String "." x) path); [|reflexivity].
        destruct Hiff as [H _]. specialize (H eq_refl). congruence.
    + destruct (ends_with (String "." x) path); [|reflexivity].
      destruct Hiff as [H _]. discriminate H. reflexivity.
Qed.

(** X16.  The four suffix tests of [getIconComponent] amount to a look-up of
    the last extension: for a row that is no application, the icon is the
    one listed for what follows the last dot of the lower-cased id (so
    [a.png.txt] is a text file, and a directory called [shots.png] gets the
    image icon); the folder and file icons are left for ids without a listed
    extension. *)
Theorem icon_by_last_extension (toLowerCase : string -> string)
    (item : SearchResult) :
  getIconComponent toLowerCase item
  = if (action_type item =? "app")%string
       || (file_type item =? "Application")%string then AppWindow
    else match extension (toLowerCase (id item)) with
         | Some e => match icon_of_extension e with
                     | Some icon => icon
                     | None => icon_of_kind item
                     end
         | None => icon_of_kind item
         end.
Proof.
  unfold getIconComponent, icon_of_extension, icon_of_kind.
  destruct (_ || _); [reflexivity|].
  rewrite !test_extensions_known by reflexivity.
  destruct (extension (toLowerCase (id item))) as [e|]; [|reflexivity].
  destruct (known image_extensions e); [reflexivity|].
  destruct (known text_extensions e); [reflexivity|].
  destruct (known film_extensions e); [reflexivity|].
  destruct (known music_extensions e); reflexivity.
Qed.

(** ** Highlighting *)

Lemma not_syntax_character (c : N) :
  is_syntax_character c = false -> c <> close_paren /\ c <> backslash.
Proof.
  intro H. split; intro E; subst c; discriminate H.
Qed.

Lemma literal_group_escaped (keyword : jsstring) :
  literal_group (regex_escape keyword ++ units ")") = Some keyword.
Proof.
  induction keyword as [|c keyword IH].
  - reflexivity.
  - unfold regex_escape. simpl flat_map. fold (regex_escape keyword).
    destruct (is_syntax_character c) eqn:Ec.
    + change (([backslash; c] ++ regex_escape keyword) ++ units ")")
        with (backslash :: c :: (regex_escape keyword ++ units ")")).
      simpl literal_group. rewrite Ec, IH. reflexivity.
    + destruct (not_syntax_character c Ec) as [H1 H2].
      apply N.eqb_neq in H1, H2.
      change (([c] ++ regex_escape keyword) ++ units ")")
        with (c :: (regex_escape keyword ++ units ")")).
      simpl literal_group. rewrite H1, H2, Ec, IH. reflexivity.
Qed.


Lemma replace_unit_removes (c : N) (rep s : jsstring) :
  ~ In c rep -> ~ In c (replace_unit c rep s).
Proof.
  intros Hrep Hin. unfold replace_unit in Hin. apply in_flat_map in Hin.
  destruct Hin as [u [Hs Hu]]. destruct (u =? c)%N eqn:E.
  - contradiction.
  - apply N.eqb_neq in E. destruct Hu as [Hu|[]]. congruence.
Qed.

Lemma replace_unit_adds_none (x c : N) (rep s : jsstring) :
  ~ In x rep -> ~ In x s -> ~ In x (replace_unit c rep s).
Proof.
  intros Hrep Hs Hin. unfold replace_unit in Hin. apply in_flat_map in Hin.
  destruct Hin as [u [Hu Hx]]. destruct (u =? c)%N.
  - contradiction.
  - destruct Hx as [Hx|[]]. subst u. contradiction.
Qed.

Lemma escaped_has_no_angle (text : jsstring) :
  ~ In lt (escape_html text) /\ ~ In gt (escape_html text).
Proof.
  unfold escape_html. split.
  - apply replace_unit_adds_none.
    + vm_compute. intuition discriminate.
    + apply replace_unit_removes. vm_compute. intuition discriminate.
  - apply replace_unit_removes. vm_compute. intuition discriminate.
Qed.

Lemma strip_plain (p x : jsstring) :
  ~ In lt p -> strip_tags false (p ++ x) = p ++ strip_tags false x.
Proof.
  induction p as [|c p IH]; simpl; intro H.
  - reflexivity.
  - destruct (N.eqb_spec c lt) as [->|Hne].
    + exfalso. apply H. now left.
    + rewrite IH by tauto. reflexivity.
Qed.

Lemma strip_span_open (x : jsstring) :
  strip_tags false (span_open ++ x) = strip_tags false x.
Proof. reflexivity. Qed.

Lemma strip_span_close (x : jsstring) :
  strip_tags false (span_close ++ x) = strip_tags false x.
Proof. reflexivity. Qed.

Lemma firstn_keeps_out (u : N) (n : nat) (text : jsstring) :
  ~ In u text -> ~ In u (firstn n text).
Proof.
  revert text. induction n as [|n IH]; intros [|c text] H; simpl; auto.
  simpl in H. intros [E|Hin]; [tauto|]. apply (IH text); tauto.
Qed.

Lemma replace_matches_head (Canonicalize : N -> N) (literal rest : jsstring)
    (c : N) :
  replace_matches Canonicalize literal 0 (c :: rest)
  = if matches_here Canonicalize literal (c :: rest) then
      span_open ++ firstn (List.length literal) (c :: rest) ++ span_close
      ++ replace_matches Canonicalize literal (List.length literal - 1) rest
    else c :: replace_matches Canonicalize literal 0 rest.
Proof. reflexivity. Qed.

Lemma strip_replaced (Canonicalize : N -> N) (literal text : jsstring)
    (skip : nat) :
  literal <> [] ->
  ~ In lt text ->
  strip_tags false (replace_matches Canonicalize literal skip text)
  = skipn skip text.
Proof.
  intro Hl. revert skip. induction text as [|c rest IH]; intros skip Ht.
  - now destruct skip.
  - assert (Hrest : ~ In lt rest) by (simpl in Ht; tauto).
    destruct skip as [|k].
    + rewrite replace_matches_head.
      destruct (matches_here Canonicalize literal (c :: rest)).
      * rewrite strip_span_open, strip_plain.
        -- rewrite strip_span_close, (IH _ Hrest).
           destruct literal as [|p literal]; [congruence|].
           replace (List.length (p :: literal) - 1)
             with (List.length literal) by (simpl; lia).
           change (skipn (List.length literal) rest)
             with (skipn (List.length (p :: literal)) (c :: rest)).
           apply firstn_skipn.
        -- now apply firstn_keeps_out.
      * simpl. destruct (N.eqb_spec c lt) as [->|Hne].
        -- exfalso. apply Ht. now left.
        -- now rewrite (IH 0 Hrest).
    + simpl. now apply IH.
Qed.

(** X18.  For a keyword and a text that are not empty, highlighting adds
    markup and nothing else: taking the tags out of the result gives the
    escaped text back, unit for unit, and the escaped text holds no [<] and
    no [>]; so every [<] of the result opens one of the two [span] tags. *)
Theorem highlight_adds_markup_only (Canonicalize : N -> N)
    (text keyword : jsstring) :
  keyword <> [] ->
  text <> [] ->
  exists out,
    highlightText Canonicalize text keyword = Some out
    /\ strip_tags false out = escape_html text
    /\ ~ In lt (escape_html text)
    /\ ~ In gt (escape_html text).
Proof.
  intros Hk Ht.
  destruct (escaped_has_no_angle text) as [Hlt Hgt].
  exists (replace_matches Canonicalize keyword 0 (escape_html text)).
  split; [|split; [|split; assumption]].
  - unfold highlightText. destruct keyword; [congruence|].
    destruct text; [congruence|]. cbv zeta.
    change (units "(" ++ regex_escape (n :: keyword) ++ units ")")
      with (open_paren :: (regex_escape (n :: keyword) ++ units ")")).
    unfold compile. simpl N.eqb. cbv iota.
    now rewrite literal_group_escaped.
  - now rewrite strip_replaced.
Qed.

Lemma highlight_adds_markup_only_witness :
  exists out,
    highlightText upper_ascii (units "Report <b> & repo.txt") (units "rep")
    = Some out
    /\ strip_tags false out = units "Report &lt;b&gt; &amp; repo.txt".
Proof.
  destruct (highlight_adds_markup_only upper_ascii
              (units "Report <b> & repo.txt") (units "rep"))
    as [out [Ho [Hs _]]]; [discriminate | discriminate |].
  exists out. split; [exact Ho | exact Hs].
Defined.

Lemma no_match_without_unit (Canonicalize : N -> N) (u : N)
    (literal text : jsstring) :
  (forall c, Canonicalize c = Canonicalize u -> c = u) ->
  In u literal ->
  ~ In u text ->
  matches_here Canonicalize literal text = false.
Proof.
  intros Hc. revert text. induction literal as [|p literal IH];
    intros text Hin Ht; [contradiction|].
  destruct text as [|c text]; [reflexivity|]. simpl.
  destruct Hin as [->|Hin].
  - destruct (N.eqb_spec (Canonicalize u) (Canonicalize c)) as [E|E].
    + exfalso. apply Ht. left. now apply Hc.
    + reflexivity.
  - rewrite (IH text Hin) by (simpl in Ht; tauto). apply andb_false_r.
Qed.

Lemma replace_without_unit (Canonicalize : N -> N) (u : N)
    (literal text : jsstring) :
  (forall c, Canonicalize c = Canonicalize u -> c = u) ->
  In u literal ->
  ~ In u text ->
  replace_matches Canonicalize literal 0 text = text.
Proof.
  intros Hc Hin. induction text as [|c text IH]; intro Ht; [reflexivity|].
  rewrite replace_matches_head.
  rewrite (no_match_without_unit Canonicalize u literal (c :: text) Hc Hin Ht).
  rewrite IH by (simpl in Ht; tauto). reflexivity.
Qed.

(** X19.  The keyword is looked for in the escaped text.  A keyword that
    holds a [<] or a [>] is therefore never found, even in a text that holds
    it: the result is the escaped text, without a highlight.  (No other code
    unit is equal to [<] or [>] up to case, which is what the hypothesis on
    [Canonicalize] says.) *)
Theorem angle_keyword_never_highlights (Canonicalize : N -> N) (u : N)
    (text keyword : jsstring) :
  u = lt \/ u = gt ->
  (forall c, Canonicalize c = Canonicalize u -> c = u) ->
  In u keyword ->
  text <> [] ->
  highlightText Canonicalize text keyword = Some (escape_html text).
Proof.
  intros Hu Hc Hin Ht.
  assert (Hno : ~ In u (escape_html text)).
  { destruct (escaped_has_no_angle text). destruct Hu; subst u; assumption. }
  unfold highlightText. destruct keyword as [|k keyword]; [contradiction|].
  destruct text; [congruence|]. cbv zeta.
  change (units "(" ++ regex_escape (k :: keyword) ++ units ")")
    with (open_paren :: (regex_escape (k :: keyword) ++ units ")")).
  unfold compile. simpl N.eqb. cbv iota.
  rewrite literal_group_escaped.
  now rewrite (replace_without_unit Canonicalize u).
Qed.

Lemma upper_ascii_angle (u c : N) :
  u = lt \/ u = gt -> upper_ascii c = upper_ascii u -> c = u.
Proof.
  intros Hu. unfold upper_ascii.
  destruct ((97 <=? c) && (c <=? 122))%N eqn:E.
  - apply andb_true_iff in E. destruct E as [E1 E2].
    apply N.leb_le in E1, E2.
    destruct Hu; subst u; unfold lt, gt; simpl; lia.
  - destruct Hu; subst u; simpl; auto.
Qed.

Lemma angle_keyword_never_highlights_witness :
  highlightText upper_ascii (units "a<b") (units "<B")
  = Some (units "a&lt;b").
Proof.
  apply (angle_keyword_never_highlights upper_ascii lt).
  - now left.
  - intro c. apply upper_ascii_angle. now left.
  - now left.
  - discriminate.
Defined.

(** ** What is scrolled into view *)

Lemma handle_never_scrolls (e : Event) (s : State) (r : Z) :
  ~ In (ScrollIntoView r) (output_of (handle e) s).
Proof.
  destruct e; by_cases; simpl; intuition discriminate.
Qed.

Lemma watch_scrolls (i r : Z) (s : State) :
  In (ScrollIntoView r) (output_of (watch_selectedIndex i) s) ->
  r = i
  /\ showSettings s = false
  /\ (0 <= i < children_length s)%Z
  /\ state_of (watch_selectedIndex i) s = set_isKeyboardScroll false s.
Proof.
  handler. simpl. unfold resultListRef.
  destruct (isKeyboardScroll s); simpl; [|tauto].
  destruct (showSettings s); simpl; [tauto|].
  destruct (i >=? children_length s)%Z eqn:G; simpl; [tauto|].
  destruct (0 <=? i)%Z eqn:P; simpl; [|tauto].
  intros [E|[]]. injection E as <-.
  rewrite Z.geb_leb in G. apply Z.leb_gt in G. apply Z.leb_le in P.
  repeat split; auto; lia.
Qed.

(** X20.  Whatever the event, a [scrollIntoView] that its task asks for is
    asked for the row that is selected when the task ends, in the main view,
    and that row is among the children of the result area; the scroll gate
    is clear afterwards. *)
Theorem scroll_targets_selection (e : Event) (s : State) (r : Z) :
  In (ScrollIntoView r) (output_of (step e) s) ->
  let s' := state_of (step e) s in
  r = selectedIndex s'
  /\ showSettings s' = false
  /\ (0 <= r < children_length s')%Z
  /\ isKeyboardScroll s' = false.
Proof.
  rewrite output_of_step, state_of_step_cases.
  destruct (_ =? _)%Z.
  - intro H. now apply handle_never_scrolls in H.
  - intro H. apply in_app_or in H. destruct H as [H|H].
    + now apply handle_never_scrolls in H.
    + apply watch_scrolls in H. destruct H as [-> [Hv [Hb ->]]].
      cbv zeta. simpl. unfold children_length in *. simpl. auto.
Qed.

Lemma scroll_targets_selection_witness :
  1%Z = selectedIndex (state_of (step (KeyDown "ArrowDown")) two_rows).
Proof.
  apply (scroll_targets_selection (KeyDown "ArrowDown") two_rows 1%Z).
  vm_compute. right. left. reflexivity.
Defined.

(** ** Hover suppression always ends *)

Lemma released_later (D D' : nat) (s : State) :
  D <= D' -> released_by D s -> released_by D' s.
Proof.
  intros Hle Hr Hm. destruct (Hr Hm) as [t [Hin [Hcb Hdue]]].
  exists t. repeat split; auto. lia.
Qed.

Lemma reachable_released (s : State) :
  reachable s -> released_by (now s + 150) s.
Proof.
  induction 1 as [|s te Hs IH].
  - intro H. discriminate H.
  - pose proof (reachable_timers_ok s Hs) as Hok.
    rewrite tstep_now, state_of_tstep.
    destruct (is_scroll_event (snd te)) eqn:E.
    + destruct (snd te); try discriminate.
      eapply released_later; [|apply scroll_releases].
      rewrite advance_now. lia.
    + apply released_step; [now apply timers_ok_advance | exact E |].
      apply released_advance. eapply released_later; [|exact IH]. lia.
Qed.

(** X21.  Hover suppression cannot get stuck: in every reachable state, once
    more than 150 ms pass, [isMouseScrolling] is false, and a hover with
    real movement that comes then selects its row. *)
Theorem suppression_always_ends (s : State) (d : nat) (row mx my : Z) :
  reachable s ->
  150 < d ->
  isMouseScrolling (state_of (advance d) s) = false
  /\ ((mx <> 0 \/ my <> 0)%Z ->
      selectedIndex (state_of (tstep (d, MouseMove row mx my)) s) = row).
Proof.
  intros Hr Hd.
  assert (Hoff : isMouseScrolling (state_of (advance d) s) = false).
  { apply (window_over (now s + 150)); [now apply reachable_released | lia]. }
  split; [exact Hoff|].
  intro Hm. rewrite state_of_tstep, step_selectedIndex.
  simpl fst; simpl snd. unfold state_of at 1.
  now rewrite (hover_selects _ _ _ _ Hoff Hm).
Qed.

Lemma suppression_always_ends_witness :
  isMouseScrolling
    (state_of (advance 151)
       (state_of (run [ (0, ListScroll); (100, ListScroll) ]) two_rows))
  = false.
Proof.
  apply (suppression_always_ends _ 151 0%Z 0%Z 0%Z).
  - apply reachable_run, reachable_run, reachable_init.
  - lia.
Defined.

(** ** Up and Down undo each other *)

(** X22.  With the selection on a row, Up after Down, and Down after Up,
    bring the selection back to that row, the wrap at both ends included. *)
Theorem up_undoes_down (s : State) :
  (0 <= selectedIndex s < Z.of_nat (List.length (results s)))%Z ->
  selectedIndex (state_of (step (KeyDown "ArrowUp"))
                          (state_of (step (KeyDown "ArrowDown")) s))
  = selectedIndex s
  /\ selectedIndex (state_of (step (KeyDown "ArrowDown"))
                             (state_of (step (KeyDown "ArrowUp")) s))
     = selectedIndex s.
Proof.
  intro Hi.
  set (n := Z.of_nat (List.length (results s))) in *.
  destruct (step_arrow_down s Hi) as [Hrd Hsd].
  destruct (step_arrow_up s Hi) as [Hru Hsu].
  fold n in Hsd, Hsu.
  split.
  - destruct (step_arrow_up (state_of (step (KeyDown "ArrowDown")) s))
      as [_ H].
    + rewrite Hrd, Hsd. fold n. apply Z.mod_pos_bound. lia.
    + rewrite H, Hrd, Hsd. fold n.
      replace ((selectedIndex s + 1) mod n - 1 + n)%Z
        with ((selectedIndex s + 1) mod n + (n - 1))%Z by lia.
      rewrite Zplus_mod_idemp_l.
      replace (selectedIndex s + 1 + (n - 1))%Z
        with (selectedIndex s + 1 * n)%Z by lia.
      rewrite Z_mod_plus_full. apply Z.mod_small. exact Hi.
  - destruct (step_arrow_down (state_of (step (KeyDown "ArrowUp")) s))
      as [_ H].
    + rewrite Hru, Hsu. fold n. apply Z.mod_pos_bound. lia.
    + rewrite H, Hru, Hsu. fold n.
      rewrite Zplus_mod_idemp_l.
      replace (selectedIndex s - 1 + n + 1)%Z
        with (selectedIndex s + 1 * n)%Z by lia.
      rewrite Z_mod_plus_full. apply Z.mod_small. exact Hi.
Qed.

Lemma up_undoes_down_witness :
  selectedIndex (state_of (step (KeyDown "ArrowDown"))
                          (state_of (step (KeyDown "ArrowUp")) two_rows))
  = 0%Z.
Proof.
  assert (Hi : (0 <= selectedIndex two_rows
                < Z.of_nat (List.length (results two_rows)))%Z).
  { vm_compute. split; congruence. }
  exact (proj2 (up_undoes_down two_rows Hi)).
Defined.

(** ** An answer that arrives while the user types *)

Lemma accepted_answer_state (res : list SearchResult) (s : State) :
  let s' := state_of (step (SearchSettled (latestSearchId s) (Resolved res))) s in
  results s' = res
  /\ selectedIndex s' = 0%Z
  /\ isLoading s' = false
  /\ query s' = query s
  /\ timers s' = timers s.
Proof.
  cbv zeta.
  rewrite step_results, step_selectedIndex, step_isLoading, step_query,
    step_timers.
  unfold state_of. simpl handle. handler.
  rewrite Nat.eqb_refl. simpl. rewrite Nat.eqb_refl. simpl. auto.
Qed.

(** X23.  An input change does not make the search in flight stale.  When
    the answer to the search issued last arrives less than 100 ms after an
    input change, it is accepted: it replaces the list, resets the selection
    and clears the loading flag that the input change had set, while the
    query is the new text and the debounce timer of the input change is
    still pending. *)
Theorem answer_during_debounce (s : State) (v : string) (g : nat)
    (res : list SearchResult) :
  reachable s ->
  g < 100 ->
  let typed := state_of (step (Input v)) s in
  let s' := state_of (tstep (g, SearchSettled (latestSearchId s) (Resolved res)))
                     typed in
  isLoading typed = true
  /\ results s' = res
  /\ selectedIndex s' = 0%Z
  /\ isLoading s' = false
  /\ query s' = v
  /\ search_timers s'
     = [{| tid := nextTimer s; due := now s + 100; cb := CbSearch |}].
Proof.
  intros Hr Hg typed s'. apply reachable_timers_ok in Hr.
  destruct (debouncing_input v s Hr) as [[_ [Hq [Hl [t [Ht Hd]]]]] _].
  fold typed in Hq, Hl, Ht, Hd.
  pose proof (input_rearms v s Hr) as Harm. fold typed in Harm.
  destruct (single_timer_waits t g typed Ht) as [_ [Hl' Ht']]; [lia|].
  assert (Hload : isLoading typed = true).
  { unfold typed. rewrite step_isLoading. by_cases; reflexivity. }
  subst s'. rewrite state_of_tstep. simpl fst; simpl snd.
  set (sa := state_of (advance g) typed) in *.
  assert (Htok : latestSearchId s = latestSearchId sa) by congruence.
  rewrite Htok.
  destruct (accepted_answer_state res sa) as [H1 [H2 [H3 [H4 H5]]]].
  split; [exact Hload|].
  split; [exact H1 | split; [exact H2 | split; [exact H3 | split]]].
  - rewrite H4. unfold sa. now rewrite advance_query.
  - unfold search_timers. rewrite H5.
    fold (search_timers sa). rewrite Ht', <- Ht. exact Harm.
Qed.

Lemma answer_during_debounce_witness :
  results
    (state_of (tstep (40, SearchSettled 1 (Resolved [item "a.txt"])))
              (state_of (step (Input "ab")) two_rows))
  = [item "a.txt"].
Proof.
  assert (Hr : reachable two_rows) by (apply reachable_run, reachable_init).
  assert (Hg : 40 < 100) by lia.
  exact (proj1 (proj2 (answer_during_debounce two_rows "ab" 40
                         [item "a.txt"] Hr Hg))).
Defined.
